(** * YuJian-Lab: the real-time fan-out hub and its client mirror

    A shallow embedding of the message system of the repository:

    - [RootScheduler]  : [src/broadcast-scheduler.ts], the bounded priority
                         queue with displacement;
    - [HubScheduler]   : the WebSocket [BroadcastScheduler] of the presence
                         backend (queue, drain, grouping, merged envelopes);
    - [Router]         : [src/message-router.js], the subscriber registry
                         with its reserved types;
    - [Detector]       : [backend/src/websocket/change-detector.ts], status
                         diffing, priorities and the health state machine;
    - [Client]         : the [WebSocketClient] of the frontend (reconnect,
                         offline queue, resubscription, frame handling).

    JavaScript numbers that only carry integers (lengths, counters, epoch
    milliseconds) are [nat] or [Z]; numbers that carry measurements or
    delays (CPU usage, back-off delays) are rationals [Q], on which the
    comparisons of the source are exact. *)

From Stdlib Require Import ZArith QArith Qminmax Qabs Qpower Bool List String Lia Lqa.
From Stdlib Require Import Sorting.Sorted Sorting.Permutation.
From stdpp Require Import gmap strings list fin_maps.

Import ListNotations.
Local Open Scope string_scope.
Local Open Scope list_scope.
Local Open Scope nat_scope.

(* ===================================================================== *)
(** ** Array helpers shared by the modules                                *)
(* ===================================================================== *)

(** [Array.prototype.findIndex]: the index of the first element that
    satisfies the predicate; [None] stands for the [-1] of JavaScript. *)
Fixpoint findIndex {A : Type} (p : A -> bool) (l : list A) : option nat :=
  match l with
  | [] => None
  | x :: r => if p x then Some 0 else option_map S (findIndex p r)
  end.

(** [arr.splice(i, 1)]: removes the element at index [i]. *)
Definition splice_remove {A : Type} (i : nat) (l : list A) : list A :=
  firstn i l ++ skipn (S i) l.

(** [arr.splice(i, 0, x)]: inserts [x] at index [i]. *)
Definition splice_insert {A : Type} (i : nat) (x : A) (l : list A) : list A :=
  firstn i l ++ x :: skipn i l.

(** What [findIndex] finds: the list splits at the first hit. *)
Lemma findIndex_Some {A : Type} (p : A -> bool) (l : list A) (i : nat) :
  findIndex p l = Some i ->
  exists l1 v l2,
    l = l1 ++ v :: l2 /\ length l1 = i /\ p v = true /\
    Forall (fun x => p x = false) l1.
Proof.
  revert i; induction l as [|x r IH]; intros i H; simpl in H.
  - discriminate.
  - destruct (p x) eqn:Hx.
    + injection H as <-. exists [], x, r. repeat split; auto.
    + destruct (findIndex p r) as [j|] eqn:Hr; simpl in H; [|discriminate].
      injection H as <-.
      destruct (IH j eq_refl) as (l1 & v & l2 & -> & Hlen & Hv & Hall).
      exists (x :: l1), v, l2. repeat split; simpl; auto.
Qed.

Lemma findIndex_None {A : Type} (p : A -> bool) (l : list A) :
  findIndex p l = None <-> Forall (fun x => p x = false) l.
Proof.
  induction l as [|x r IH]; simpl.
  - split; auto.
  - destruct (p x) eqn:Hx.
    + split; [discriminate|]. intros H. inversion H; congruence.
    + destruct (findIndex p r); simpl.
      * split; [discriminate|]. intros H. inversion H; subst.
        apply IH in H3. discriminate.
      * split; auto. intros _. constructor; auto. apply IH; auto.
Qed.

Lemma splice_remove_app {A : Type} (l1 : list A) (v : A) (l2 : list A) :
  splice_remove (length l1) (l1 ++ v :: l2) = l1 ++ l2.
Proof.
  unfold splice_remove.
  rewrite firstn_app, Nat.sub_diag, firstn_all. simpl. rewrite app_nil_r.
  replace (S (length l1)) with (length (l1 ++ [v])) by (rewrite length_app; simpl; lia).
  replace (l1 ++ v :: l2) with ((l1 ++ [v]) ++ l2) by (rewrite <- app_assoc; reflexivity).
  rewrite skipn_app, Nat.sub_diag, skipn_all. reflexivity.
Qed.

Lemma splice_insert_app {A : Type} (l1 : list A) (x : A) (l2 : list A) :
  splice_insert (length l1) x (l1 ++ l2) = l1 ++ x :: l2.
Proof.
  unfold splice_insert.
  rewrite firstn_app, Nat.sub_diag, firstn_all. simpl. rewrite app_nil_r.
  rewrite skipn_app, Nat.sub_diag, skipn_all. reflexivity.
Qed.

(* ===================================================================== *)
(** ** [src/broadcast-scheduler.ts]: the bounded queue                    *)
(* ===================================================================== *)

Module RootScheduler.

(** [priority: 'high' | 'medium' | 'low'].  The middle priority is spelled
    [medium] in this file and [normal] in the WebSocket scheduler. *)
Inductive Priority : Type := high | medium | low.

Definition Priority_eqb (a b : Priority) : bool :=
  match a, b with
  | high, high | medium, medium | low, low => true
  | _, _ => false
  end.

Lemma Priority_eqb_eq (a b : Priority) : Priority_eqb a b = true <-> a = b.
Proof. destruct a, b; simpl; split; congruence. Qed.

Record BroadcastMessage : Type := mkMessage {
  id : string;
  type : string;
  content : string;
  priority : Priority;
  timestamp : Z
}.

(** [this.queue] and [this.maxQueueSize]; the other fields of the class
    ([isRunning], [subscribers]) are not touched by [enqueue]. *)
Record Scheduler : Type := mkScheduler {
  queue : list BroadcastMessage;
  maxQueueSize : nat
}.

Definition DEFAULT_MAX_QUEUE_SIZE : nat := 1000.

(** [constructor(options)]: [options.maxQueueSize ?? DEFAULT_MAX_QUEUE_SIZE]. *)
Definition new (options : option nat) : Scheduler :=
  mkScheduler [] (match options with Some n => n | None => DEFAULT_MAX_QUEUE_SIZE end).

Definition set_queue (s : Scheduler) (q : list BroadcastMessage) : Scheduler :=
  mkScheduler q (maxQueueSize s).

(** [const priorityOrder = { high: 0, medium: 1, low: 2 }]. *)
Definition priorityOrder (p : Priority) : nat :=
  match p with high => 0 | medium => 1 | low => 2 end.

(** [insertByPriority]: before the first queued message of strictly lower
    priority, at the end when there is none. *)
Definition insertByPriority (message : BroadcastMessage)
    (q : list BroadcastMessage) : list BroadcastMessage :=
  match findIndex
          (fun m => priorityOrder (priority message) <? priorityOrder (priority m)) q
  with
  | None => q ++ [message]
  | Some insertIndex => splice_insert insertIndex message q
  end.

(** [enqueue(message): boolean], branch by branch. *)
Definition enqueue (message : BroadcastMessage) (s : Scheduler)
    : bool * Scheduler :=
  if maxQueueSize s <=? length (queue s) then
    let lowPriorityIndex :=
      findIndex (fun m => Priority_eqb (priority m) low) (queue s) in
    match lowPriorityIndex, Priority_eqb (priority message) low with
    | Some i, false =>
        (true, set_queue s (insertByPriority message (splice_remove i (queue s))))
    | _, _ =>
        if Priority_eqb (priority message) low then (false, s)
        else
          let mediumPriorityIndex :=
            findIndex (fun m => Priority_eqb (priority m) medium) (queue s) in
          match mediumPriorityIndex, Priority_eqb (priority message) high with
          | Some j, true =>
              (true, set_queue s (insertByPriority message (splice_remove j (queue s))))
          | _, _ => (false, s)
          end
    end
  else (true, set_queue s (insertByPriority message (queue s))).

(** [clearQueue()]. *)
Definition clearQueue (s : Scheduler) : Scheduler := set_queue s [].

(** One iteration of the loop of [processQueue]: [this.queue.shift()]. *)
Definition shift (s : Scheduler) : Scheduler := set_queue s (tl (queue s)).

(** The states the class can reach from its constructor. *)
Inductive reachable : Scheduler -> Prop :=
| reach_new (options : option nat) : reachable (new options)
| reach_enqueue (m : BroadcastMessage) (s : Scheduler) :
    reachable s -> reachable (snd (enqueue m s))
| reach_clear (s : Scheduler) : reachable s -> reachable (clearQueue s)
| reach_shift (s : Scheduler) : reachable s -> reachable (shift s).

(** The queue is ordered by priority, best first. *)
Definition priority_le (a b : BroadcastMessage) : Prop :=
  priorityOrder (priority a) <= priorityOrder (priority b).

Definition priority_sorted (q : list BroadcastMessage) : Prop :=
  StronglySorted priority_le q.

(** [q'] is [q] with [m] inserted in priority order: after every queued
    message of the same or a higher priority (so that equal priorities stay
    in the order of their enqueues), before the messages of lower priority. *)
Definition inserted_in_priority_order (m : BroadcastMessage)
    (q q' : list BroadcastMessage) : Prop :=
  exists front back,
    q = front ++ back /\ q' = front ++ m :: back /\
    Forall (fun x => priority_le x m) front /\
    match back with
    | [] => True
    | x :: _ => priorityOrder (priority m) < priorityOrder (priority x)
    end /\
    (priority_sorted q ->
       Forall (fun x => priorityOrder (priority m) < priorityOrder (priority x)) back /\
       priority_sorted q').

(** *** Facts about the bounded queue *)

Lemma priority_sorted_app (a b : list BroadcastMessage) :
  priority_sorted (a ++ b) <->
  priority_sorted a /\ priority_sorted b /\
  Forall (fun x => Forall (priority_le x) b) a.
Proof.
  unfold priority_sorted. induction a as [|x a IH]; simpl.
  - split; [intros H; repeat split; auto; constructor | tauto].
  - split.
    + intros H. inversion H as [|? ? Hs Hx]; subst.
      apply IH in Hs as (Ha & Hb & Hab).
      apply Forall_app in Hx as [Hxa Hxb].
      repeat split; auto; constructor; auto.
    + intros (Ha & Hb & Hab).
      inversion Ha as [|? ? Hs Hx]; subst.
      inversion Hab as [|? ? Hxb Hab']; subst.
      constructor; [apply IH; auto | apply Forall_app; auto].
Qed.


Lemma insertByPriority_inserted (m : BroadcastMessage) (q : list BroadcastMessage) :
  inserted_in_priority_order m q (insertByPriority m q).
Proof.
  unfold inserted_in_priority_order, insertByPriority.
  destruct (findIndex _ q) as [i|] eqn:Hfind.
  - apply findIndex_Some in Hfind as (front & v & back & -> & <- & Hv & Hfront).
    apply Nat.ltb_lt in Hv.
    exists front, (v :: back). rewrite splice_insert_app.
    assert (Hle : Forall (fun x => priority_le x m) front).
    { eapply List.Forall_impl; [|exact Hfront]. intros x Hx. simpl in Hx.
      apply Nat.ltb_ge in Hx. exact Hx. }
    refine (conj eq_refl (conj eq_refl (conj Hle (conj Hv _)))).
    intros Hs. split.
    + apply priority_sorted_app in Hs as (_ & Hvb & _).
      inversion Hvb as [|? ? _ Hall]; subst. constructor; [exact Hv|].
      eapply List.Forall_impl; [|exact Hall]. unfold priority_le. intros; lia.
    + apply priority_sorted_app in Hs as (Ha & Hvb & Hab).
      apply priority_sorted_app. repeat split; auto.
      * constructor; auto. inversion Hvb as [|? ? _ Hall]; subst.
        constructor; [unfold priority_le; lia|].
        eapply List.Forall_impl; [|exact Hall]. unfold priority_le. intros; lia.
      * apply Forall_forall. intros x Hx. constructor.
        -- rewrite Forall_forall in Hle. apply Hle; auto.
        -- rewrite Forall_forall in Hab. apply Hab; auto.
  - apply findIndex_None in Hfind.
    exists q, []. rewrite app_nil_r.
    assert (Hle : Forall (fun x => priority_le x m) q).
    { eapply List.Forall_impl; [|exact Hfind]. intros x Hx. simpl in Hx.
      apply Nat.ltb_ge in Hx. exact Hx. }
    refine (conj eq_refl (conj eq_refl (conj Hle (conj I _)))).
    intros Hs. split; [constructor|].
    apply priority_sorted_app. repeat split; auto.
    + repeat constructor.
    + eapply List.Forall_impl; [|exact Hle]. intros x Hx. constructor; auto.
Qed.

Lemma length_insertByPriority (m : BroadcastMessage) (q : list BroadcastMessage) :
  length (insertByPriority m q) = S (length q).
Proof.
  destruct (insertByPriority_inserted m q) as (a & b & -> & -> & _).
  rewrite !length_app. simpl. lia.
Qed.

Lemma length_splice_remove {A : Type} (i : nat) (l : list A) :
  i < length l -> S (length (splice_remove i l)) = length l.
Proof.
  intros H. unfold splice_remove.
  rewrite length_app, length_firstn, length_skipn. lia.
Qed.

Lemma findIndex_lt {A : Type} (p : A -> bool) (l : list A) (i : nat) :
  findIndex p l = Some i -> i < length l.
Proof.
  intros H. apply findIndex_Some in H as (a & v & b & -> & <- & _).
  rewrite length_app. simpl. lia.
Qed.

(** Case analysis along the branches of [enqueue]: the two [findIndex]
    scans and the tests on priorities and on the length. *)
Ltac enqueue_cases :=
  repeat match goal with
         | |- context [findIndex ?p ?l] =>
             let H := fresh "Hfind" in destruct (findIndex p l) eqn:H
         | |- context [if ?b then _ else _] => destruct b
         end.

(** The queue never grows past [maxQueueSize], whatever is enqueued. *)
Lemma enqueue_bounded (m : BroadcastMessage) (s : Scheduler) :
  length (queue s) <= maxQueueSize s ->
  length (queue (snd (enqueue m s))) <= maxQueueSize (snd (enqueue m s)).
Proof.
  intros Hb. unfold enqueue.
  destruct (maxQueueSize s <=? length (queue s)) eqn:Hfull.
  - enqueue_cases; simpl; auto;
      rewrite length_insertByPriority;
      erewrite length_splice_remove; eauto using findIndex_lt.
  - simpl. rewrite length_insertByPriority. apply Nat.leb_gt in Hfull. lia.
Qed.

Lemma maxQueueSize_enqueue (m : BroadcastMessage) (s : Scheduler) :
  maxQueueSize (snd (enqueue m s)) = maxQueueSize s.
Proof.
  unfold enqueue. enqueue_cases; reflexivity.
Qed.

(** Every reachable scheduler respects its bound. *)
Lemma reachable_bounded (s : Scheduler) :
  reachable s -> length (queue s) <= maxQueueSize s.
Proof.
  induction 1 as [o | m s _ IH | s _ IH | s _ IH].
  - simpl. lia.
  - apply enqueue_bounded, IH.
  - simpl. lia.
  - simpl. destruct (queue s); simpl in *; lia.
Qed.




(** The scenario of the test-suite: capacity 3, three [low] messages, then a
    [high] one and a further [low] one. *)
Definition L (n : string) : BroadcastMessage := mkMessage n "test" "low priority" low 0.
Definition H1 : BroadcastMessage := mkMessage "high-1" "test" "high priority" high 0.
Definition three_lows : Scheduler :=
  snd (enqueue (L "low-3") (snd (enqueue (L "low-2") (snd (enqueue (L "low-1") (new (Some 3))))))).

Example scenario_displacement :
  enqueue H1 three_lows = (true, mkScheduler [H1; L "low-2"; L "low-3"] 3) /\
  enqueue (L "low-4") (snd (enqueue H1 three_lows)) =
    (false, mkScheduler [H1; L "low-2"; L "low-3"] 3).
Proof. split; reflexivity. Qed.

(** Eviction of the first message of priority [p] followed by the ordered
    insertion of [message]. *)
Lemma evict_then_insert (p : Priority) (s : Scheduler) (message : BroadcastMessage)
    (i : nat) :
  findIndex (fun m => Priority_eqb (priority m) p) (queue s) = Some i ->
  exists front victim back,
    queue s = front ++ victim :: back /\
    priority victim = p /\
    Forall (fun x => priority x <> p) front /\
    inserted_in_priority_order message (front ++ back)
      (insertByPriority message (splice_remove i (queue s))) /\
    length (insertByPriority message (splice_remove i (queue s))) = length (queue s).
Proof.
  intros Hfind.
  pose proof (findIndex_lt _ _ _ Hfind) as Hlt.
  apply findIndex_Some in Hfind as (front & victim & back & Hq & <- & Hv & Hfront).
  exists front, victim, back. rewrite Hq in *. rewrite splice_remove_app.
  split; [reflexivity|]. split; [apply Priority_eqb_eq, Hv|]. split.
  { eapply List.Forall_impl; [|exact Hfront]. intros x Hx Heq. simpl in Hx.
    apply Priority_eqb_eq in Heq. congruence. }
  split; [apply insertByPriority_inserted|].
  rewrite length_insertByPriority, !length_app. simpl. lia.
Qed.

Lemma findIndex_Exists {A : Type} (p : A -> bool) (l : list A) :
  Exists (fun x => p x = true) l -> exists i, findIndex p l = Some i.
Proof.
  intros H. destruct (findIndex p l) as [i|] eqn:Hf; [eauto|].
  apply findIndex_None in Hf. apply List.Exists_exists in H as (x & Hin & Hx).
  rewrite List.Forall_forall in Hf. specialize (Hf x Hin). congruence.
Qed.

Lemma findIndex_priority_None (p : Priority) (q : list BroadcastMessage) :
  Forall (fun x => priority x <> p) q ->
  findIndex (fun m => Priority_eqb (priority m) p) q = None.
Proof.
  intros H. apply findIndex_None. eapply List.Forall_impl; [|exact H].
  intros x Hx. simpl. destruct (Priority_eqb (priority x) p) eqn:E; auto.
  apply Priority_eqb_eq in E. contradiction.
Qed.

Lemma findIndex_priority_Some (p : Priority) (q : list BroadcastMessage) :
  Exists (fun x => priority x = p) q ->
  exists i, findIndex (fun m => Priority_eqb (priority m) p) q = Some i.
Proof.
  intros H. apply findIndex_Exists.
  eapply List.Exists_impl; [|exact H]. intros x Hx. apply Priority_eqb_eq, Hx.
Qed.

(** *** The displacement rule *)

(** The order of the queue in words: [high] goes before [medium], and both
    go before [low]. *)
Definition outranks (a b : Priority) : Prop :=
  match a, b with
  | high, medium | high, low | medium, low => True
  | _, _ => False
  end.

(** No queued message is outranked by one behind it. *)
Definition best_first (q : list BroadcastMessage) : Prop :=
  StronglySorted (fun x y => ~ outranks (priority y) (priority x)) q.

(** [q'] is [q] with [m] put in priority order: behind every queued message
    of its own or of a higher priority (equal priorities keep the order of
    their enqueues), ahead of the messages it outranks. *)
Definition placed_in_priority_order (m : BroadcastMessage)
    (q q' : list BroadcastMessage) : Prop :=
  exists front back,
    q = front ++ back /\ q' = front ++ m :: back /\
    Forall (fun x => ~ outranks (priority m) (priority x)) front /\
    match back with
    | [] => True
    | x :: _ => outranks (priority m) (priority x)
    end /\
    (best_first q ->
       Forall (fun x => outranks (priority m) (priority x)) back /\ best_first q').

Lemma outranks_priorityOrder (a b : Priority) :
  outranks a b <-> priorityOrder a < priorityOrder b.
Proof. destruct a, b; simpl; split; intros H; try lia; try exact I; destruct H. Qed.

Lemma best_first_priority_sorted (q : list BroadcastMessage) :
  best_first q <-> priority_sorted q.
Proof.
  unfold best_first, priority_sorted.
  induction q as [|x r IH]; split; intros H; try constructor;
    inversion H as [|? ? Hs Hx]; subst; try (apply IH; exact Hs);
    (eapply List.Forall_impl; [|exact Hx]); intros y Hy; unfold priority_le in *.
  - destruct (Nat.le_gt_cases (priorityOrder (priority x)) (priorityOrder (priority y)))
      as [Hle | Hgt]; [exact Hle|].
    exfalso. apply Hy, outranks_priorityOrder, Hgt.
  - intros Ho. apply outranks_priorityOrder in Ho. lia.
Qed.

Lemma insertByPriority_placed (m : BroadcastMessage) (q : list BroadcastMessage) :
  placed_in_priority_order m q (insertByPriority m q).
Proof.
  destruct (insertByPriority_inserted m q) as (front & back & Hq & Hq' & Hf & Hh & Hs).
  exists front, back. split; [exact Hq|]. split; [exact Hq'|]. split; [|split].
  - eapply List.Forall_impl; [|exact Hf]. intros x Hx Ho.
    apply outranks_priorityOrder in Ho. unfold priority_le in Hx. lia.
  - destruct back as [|x r]; [exact I|]. apply outranks_priorityOrder, Hh.
  - intros Hb. apply best_first_priority_sorted in Hb.
    destruct (Hs Hb) as [Hback Hq's]. split.
    + eapply List.Forall_impl; [|exact Hback]. intros x Hx.
      apply outranks_priorityOrder, Hx.
    + apply best_first_priority_sorted, Hq's.
Qed.

(** Eviction of the first message of priority [p], then the placement of
    [message] among the messages that stay. *)
Lemma evict_then_place (p : Priority) (s : Scheduler) (message : BroadcastMessage)
    (i : nat) :
  findIndex (fun m => Priority_eqb (priority m) p) (queue s) = Some i ->
  exists front victim back,
    queue s = front ++ victim :: back /\
    priority victim = p /\
    Forall (fun x => priority x <> p) front /\
    placed_in_priority_order message (front ++ back)
      (insertByPriority message (splice_remove i (queue s))) /\
    length (insertByPriority message (splice_remove i (queue s))) = length (queue s).
Proof.
  intros Hfind.
  apply findIndex_Some in Hfind as (front & victim & back & Hq & <- & Hv & Hfront).
  exists front, victim, back. rewrite Hq in *. rewrite splice_remove_app.
  split; [reflexivity|]. split; [apply Priority_eqb_eq, Hv|]. split.
  { eapply List.Forall_impl; [|exact Hfront]. intros x Hx Heq. simpl in Hx.
    apply Priority_eqb_eq in Heq. congruence. }
  split; [apply insertByPriority_placed|].
  rewrite length_insertByPriority, !length_app. simpl. lia.
Qed.

(** C3.  The displacement rule on a full queue ([length queue = maxQueueSize]):
    - some queued message is [low] and the incoming one is not: the first
      [low] message is evicted, the incoming one is put in priority order
      ([high] before [medium], the spec's normal, before [low]; behind the
      queued messages of its own priority) and the call returns [true];
    - otherwise an incoming [low] message is rejected;
    - otherwise, for an incoming [high] message and a queued [medium] one,
      the first [medium] message is evicted, the incoming one is put in
      priority order and the call returns [true];
    - otherwise the call is rejected.
    The queue keeps its length [maxQueueSize] on every acceptance. *)
Theorem enqueue_full_displacement (s : Scheduler) (message : BroadcastMessage) :
  length (queue s) = maxQueueSize s ->
  (priority message <> low ->
   Exists (fun x => priority x = low) (queue s) ->
   exists front victim back q',
     queue s = front ++ victim :: back /\
     priority victim = low /\
     Forall (fun x => priority x <> low) front /\
     placed_in_priority_order message (front ++ back) q' /\
     enqueue message s = (true, mkScheduler q' (maxQueueSize s)) /\
     length q' = maxQueueSize s) /\
  (priority message = low -> enqueue message s = (false, s)) /\
  (priority message = high ->
   Forall (fun x => priority x <> low) (queue s) ->
   Exists (fun x => priority x = medium) (queue s) ->
   exists front victim back q',
     queue s = front ++ victim :: back /\
     priority victim = medium /\
     Forall (fun x => priority x <> medium) front /\
     placed_in_priority_order message (front ++ back) q' /\
     enqueue message s = (true, mkScheduler q' (maxQueueSize s)) /\
     length q' = maxQueueSize s) /\
  (priority message <> low ->
   Forall (fun x => priority x <> low) (queue s) ->
   priority message <> high \/ Forall (fun x => priority x <> medium) (queue s) ->
   enqueue message s = (false, s)).
Proof.
  intros Hfull.
  assert (Hguard : (maxQueueSize s <=? length (queue s)) = true)
    by (apply Nat.leb_le; lia).
  split; [|split; [|split]].
  - intros Hm Hlow.
    destruct (findIndex_priority_Some low _ Hlow) as [i Hi].
    destruct (evict_then_place low s message i Hi)
      as (front & victim & back & Hq & Hv & Hfront & Hins & Hlen).
    exists front, victim, back, (insertByPriority message (splice_remove i (queue s))).
    repeat (split; [assumption|]). split; [|lia].
    unfold enqueue. rewrite Hguard, Hi.
    destruct (priority message); simpl; first [reflexivity | congruence].
  - intros Hm. unfold enqueue. rewrite Hguard, Hm. simpl.
    destruct (findIndex _ (queue s)); reflexivity.
  - intros Hm Hnolow Hmed.
    destruct (findIndex_priority_Some medium _ Hmed) as [j Hj].
    destruct (evict_then_place medium s message j Hj)
      as (front & victim & back & Hq & Hv & Hfront & Hins & Hlen).
    exists front, victim, back, (insertByPriority message (splice_remove j (queue s))).
    repeat (split; [assumption|]). split; [|lia].
    unfold enqueue.
    rewrite Hguard, (findIndex_priority_None low _ Hnolow), Hj, Hm. reflexivity.
  - intros Hm Hnolow Hrest. unfold enqueue.
    rewrite Hguard, (findIndex_priority_None low _ Hnolow).
    destruct Hrest as [Hnh | Hnomed].
    + destruct (priority message); simpl; try congruence.
      destruct (findIndex _ (queue s)); reflexivity.
    + rewrite (findIndex_priority_None medium _ Hnomed).
      destruct (priority message); simpl; congruence.
Qed.

(** The rule at a full queue that holds a [high] message and two [low]
    ones: an incoming [medium] message evicts the first [low] message and
    goes between the [high] message and the remaining [low] one. *)
Definition M1 : BroadcastMessage :=
  mkMessage "medium-1" "test" "medium priority" medium 0.
Definition high_and_two_lows : Scheduler :=
  mkScheduler [H1; L "low-2"; L "low-3"] 3.

Lemma enqueue_full_displacement_witness :
  length (queue high_and_two_lows) = maxQueueSize high_and_two_lows /\
  priority M1 <> low /\
  Exists (fun x => priority x = low) (queue high_and_two_lows) /\
  exists front victim back q',
    queue high_and_two_lows = front ++ victim :: back /\
    priority victim = low /\
    Forall (fun x => priority x <> low) front /\
    placed_in_priority_order M1 (front ++ back) q' /\
    enqueue M1 high_and_two_lows = (true, mkScheduler q' 3) /\
    q' = [H1; M1; L "low-3"].
Proof.
  assert (Hfull : length (queue high_and_two_lows) = maxQueueSize high_and_two_lows)
    by reflexivity.
  assert (Hm : priority M1 <> low) by discriminate.
  assert (Hlow : Exists (fun x => priority x = low) (queue high_and_two_lows))
    by (apply Exists_cons_tl, Exists_cons_hd; reflexivity).
  split; [exact Hfull|]. split; [exact Hm|]. split; [exact Hlow|].
  destruct (proj1 (enqueue_full_displacement high_and_two_lows M1 Hfull) Hm Hlow)
    as (front & victim & back & q' & Hq & Hv & Hfront & Hplaced & Henq & _).
  exists front, victim, back, q'.
  repeat (split; [assumption|]).
  assert (E : enqueue M1 high_and_two_lows =
              (true, mkScheduler [H1; M1; L "low-3"] 3))
    by reflexivity.
  rewrite E in Henq. injection Henq as Hq'. symmetry. exact Hq'.
Defined.

End RootScheduler.

(* ===================================================================== *)
(** ** JSON values                                                        *)
(* ===================================================================== *)

(** What [JSON.parse] returns and what travels as [data] / [payload]. *)
#[local] Set Warnings "-register-all".
Inductive Json : Type :=
| JNull
| JBool (b : bool)
| JNum (q : Q)
| JStr (s : string)
| JArr (items : list Json)
| JObj (fields : list (string * Json)).

(* ===================================================================== *)
(** ** The WebSocket [BroadcastScheduler] of the presence backend         *)
(* ===================================================================== *)

Module HubScheduler.

(** [MessagePriority = 'high' | 'normal' | 'low']. *)
Inductive MessagePriority : Type := high | normal | low.

Definition MessagePriority_eqb (a b : MessagePriority) : bool :=
  match a, b with
  | high, high | normal, normal | low, low => true
  | _, _ => false
  end.

Record BroadcastTask : Type := mkTask {
  type : string;
  event : string;
  data : Json;
  priority : MessagePriority;
  timestamp : Z
}.

(** One element of [data.events] in a [batch_update]. *)
Record BatchEvent : Type := mkBatchEvent {
  be_event : string;
  be_data : Json;
  be_timestamp : Z
}.

(** The [data] of an outgoing envelope: the task's own [data], or the object
    [{ events: [...] }] of a merged message. *)
Inductive Payload : Type :=
| TaskData (d : Json)
| BatchData (events : list BatchEvent).

Record ServerMessage : Type := mkServerMessage {
  msg_id : string;
  msg_type : string;
  msg_timestamp : Z;
  msg_direction : string;
  msg_event : string;
  msg_data : Payload
}.

(** What the scheduler reads of a [ConnectionMetadata]: its id, [isAlive],
    and whether [socket.readyState === WebSocket.OPEN]. *)
Record ConnectionMetadata : Type := mkConnection {
  conn_id : string;
  isAlive : bool;
  socketOpen : bool
}.

Record WebSocketConfig : Type := mkConfig {
  broadcastBatchSize : nat;
  broadcastFlushInterval : nat
}.

(** The constructor's defaults. *)
Definition defaultConfig : WebSocketConfig := mkConfig 100 50.

Record Scheduler : Type := mkScheduler {
  messageQueue : list BroadcastTask;
  isProcessing : bool
}.

Definition new : Scheduler := mkScheduler [] false.

(** A [socket.send]: the receiving connection and the text written. *)
Definition Write : Type := (string * string)%type.

(** [priorityWeight] of [sortQueue]. *)
Definition priorityWeight (p : MessagePriority) : Z :=
  match p with high => 0 | normal => 1 | low => 2 end.

(** The comparator handed to [Array.prototype.sort]. *)
Definition compareTasks (a b : BroadcastTask) : Z :=
  let priorityDiff := (priorityWeight (priority a) - priorityWeight (priority b))%Z in
  if (priorityDiff =? 0)%Z then (timestamp a - timestamp b)%Z else priorityDiff.

(** [Array.prototype.sort] is a stable sort (ECMAScript 2019); for a
    consistent comparator its result is the one of the stable insertion
    sort below. *)
Fixpoint insert_task (t : BroadcastTask) (l : list BroadcastTask)
    : list BroadcastTask :=
  match l with
  | [] => [t]
  | x :: r => if (compareTasks t x <=? 0)%Z then t :: x :: r
              else x :: insert_task t r
  end.

Definition sortQueue (q : list BroadcastTask) : list BroadcastTask :=
  fold_right insert_task [] q.

(** The [Map<MessageType, BroadcastTask[]>] of [groupByType]: keys in
    insertion order. *)
Definition Groups : Type := list (string * list BroadcastTask).

Definition groups_has (g : Groups) (k : string) : bool :=
  existsb (fun kv => String.eqb (fst kv) k) g.

Fixpoint groups_set (k : string) (v : list BroadcastTask) (g : Groups) : Groups :=
  match g with
  | [] => [(k, v)]
  | (k', v') :: r =>
      if String.eqb k' k then (k', v) :: r else (k', v') :: groups_set k v r
  end.

(** [groups.get(k)!.push(task)]. *)
Fixpoint groups_push (k : string) (task : BroadcastTask) (g : Groups) : Groups :=
  match g with
  | [] => []
  | (k', v') :: r =>
      if String.eqb k' k then (k', v' ++ [task]) :: r
      else (k', v') :: groups_push k task r
  end.

Definition groupByType (tasks : list BroadcastTask) : Groups :=
  fold_left
    (fun groups task =>
       let groups :=
         if groups_has groups (type task) then groups
         else groups_set (type task) [] groups in
       groups_push (type task) task groups)
    tasks [].

Definition toBatchEvent (t : BroadcastTask) : BatchEvent :=
  mkBatchEvent (event t) (data t) (timestamp t).

(** [enqueue]'s [push], and the synchronous head of [processQueue]: the
    guard, [isProcessing = true], [sortQueue], [splice(0, batchSize)]. *)
Definition push (task : BroadcastTask) (s : Scheduler) : Scheduler :=
  mkScheduler (messageQueue s ++ [task]) (isProcessing s).

(** [this.config.broadcastBatchSize || 100]. *)
Definition batchSize (config : WebSocketConfig) : nat :=
  match broadcastBatchSize config with 0 => 100 | n => n end.

Definition processQueue_begin (config : WebSocketConfig) (s : Scheduler)
    : option (list BroadcastTask * Scheduler) :=
  if isProcessing s || (length (messageQueue s) =? 0) then None
  else
    let sorted := sortQueue (messageQueue s) in
    let batch := firstn (batchSize config) sorted in
    Some (batch, mkScheduler (skipn (batchSize config) sorted) true).

(** The [finally] block of [processQueue]; the boolean tells whether a
    further drain is scheduled with [setImmediate]. *)
Definition processQueue_end (s : Scheduler) : bool * Scheduler :=
  (negb (length (messageQueue s) =? 0), mkScheduler (messageQueue s) false).

Section Fanout.

(** [connectionManager.getConnectionsBySubscription], [JSON.stringify], and
    the values [generateUUID()] and [Date.now()] return when the envelope of
    a group is built (one envelope per type and drain). *)
Variable getConnectionsBySubscription : string -> list ConnectionMetadata.
Variable stringify : ServerMessage -> string.
Variable generateUUID : string -> string.
Variable now : string -> Z.

Definition sendToConnection (connection : ConnectionMetadata) (message : string)
    : list Write :=
  if isAlive connection && socketOpen connection
  then [(conn_id connection, message)] else [].

Definition createMergedMessage (type : string) (tasks : list BroadcastTask)
    : ServerMessage :=
  match tasks with
  | [t] =>
      mkServerMessage (generateUUID type) type (now type) "server-to-client"
        (event t) (TaskData (data t))
  | _ =>
      mkServerMessage (generateUUID type) type (now type) "server-to-client"
        "batch_update" (BatchData (map toBatchEvent tasks))
  end.

(** [broadcastBatch]: the socket writes of one batch, in the order they are
    issued. *)
Definition broadcastBatch (tasks : list BroadcastTask) : list Write :=
  match tasks with
  | [] => []
  | _ =>
      flat_map
        (fun group : string * list BroadcastTask =>
           let (type, typeTasks) := group in
           let connections := getConnectionsBySubscription type in
           match connections with
           | [] => []
           | _ =>
               let mergedMessage := createMergedMessage type typeTasks in
               let serialized := stringify mergedMessage in
               flat_map (fun conn => sendToConnection conn serialized) connections
           end)
        (groupByType tasks)
  end.

(** [enqueue]: append, and start a drain at once for a [high] task.  The
    result holds the writes of that drain and the state in which the caller
    continues ([isProcessing] is reset later, by [processQueue_end]). *)
Definition enqueue (config : WebSocketConfig) (task : BroadcastTask) (s : Scheduler)
    : list Write * Scheduler :=
  let s := push task s in
  if MessagePriority_eqb (priority task) high then
    match processQueue_begin config s with
    | Some (batch, s') => (broadcastBatch batch, s')
    | None => ([], s)
    end
  else ([], s).

(** A whole run of [processQueue], as [flush] starts it from the timer. *)
Definition processQueue (config : WebSocketConfig) (s : Scheduler)
    : list Write * Scheduler :=
  match processQueue_begin config s with
  | Some (batch, s') => (broadcastBatch batch, snd (processQueue_end s'))
  | None => ([], s)
  end.

End Fanout.

(** *** The order of a drain *)

(** [a] is drained no later than [b]: higher priority first, and within a
    priority the smaller [timestamp] first. *)
Definition task_le (a b : BroadcastTask) : Prop := (compareTasks a b <= 0)%Z.

Lemma task_le_iff (a b : BroadcastTask) :
  task_le a b <->
  (priorityWeight (priority a) < priorityWeight (priority b))%Z \/
  (priority a = priority b /\ (timestamp a <= timestamp b)%Z).
Proof.
  unfold task_le, compareTasks.
  destruct (priority a), (priority b); simpl; split;
    intros H; try lia; try (right; split; [reflexivity | lia]);
    try (destruct H as [H | [H H']]; (lia || discriminate)).
Qed.

Lemma task_le_trans (a b c : BroadcastTask) :
  task_le a b -> task_le b c -> task_le a c.
Proof.
  rewrite !task_le_iff.
  intros [H1 | [H1 H1']] [H2 | [H2 H2']].
  - left; lia.
  - left; rewrite <- H2; exact H1.
  - left; rewrite H1; exact H2.
  - right; split; [congruence | lia].
Qed.

Lemma task_le_total (a b : BroadcastTask) : task_le a b \/ task_le b a.
Proof.
  unfold task_le, compareTasks.
  destruct (priority a), (priority b); simpl; lia.
Qed.

(** Sorted for the comparator, and sorted in words: every task comes before
    the tasks of lower priority and before the tasks of its own priority
    with a later timestamp. *)
Definition cmp_sorted (q : list BroadcastTask) : Prop := StronglySorted task_le q.

Definition drains_before (a b : BroadcastTask) : Prop :=
  (priorityWeight (priority a) < priorityWeight (priority b))%Z \/
  (priority a = priority b /\ (timestamp a <= timestamp b)%Z).

Definition drain_sorted (q : list BroadcastTask) : Prop :=
  StronglySorted drains_before q.

Lemma cmp_sorted_drain_sorted (q : list BroadcastTask) :
  cmp_sorted q -> drain_sorted q.
Proof.
  unfold cmp_sorted, drain_sorted. induction 1 as [|x r Hs IH Hx]; constructor; auto.
  eapply List.Forall_impl; [|exact Hx]. intros y Hy. apply task_le_iff, Hy.
Qed.

Lemma insert_task_perm (t : BroadcastTask) (l : list BroadcastTask) :
  Permutation (t :: l) (insert_task t l).
Proof.
  induction l as [|x r IH]; simpl; [reflexivity|].
  destruct (compareTasks t x <=? 0)%Z; [reflexivity|].
  rewrite perm_swap. constructor. exact IH.
Qed.

Lemma insert_task_sorted (t : BroadcastTask) (l : list BroadcastTask) :
  cmp_sorted l -> cmp_sorted (insert_task t l).
Proof.
  unfold cmp_sorted. induction 1 as [|x r Hs IH Hx]; simpl.
  - repeat constructor.
  - destruct (compareTasks t x <=? 0)%Z eqn:Hc.
    + apply Z.leb_le in Hc. constructor; [constructor; auto|].
      constructor; [exact Hc|].
      eapply List.Forall_impl; [|exact Hx]. intros y Hy.
      eapply task_le_trans; eauto.
    + apply Z.leb_gt in Hc. constructor; [exact IH|].
      assert (Hxt : task_le x t).
      { destruct (task_le_total x t) as [H|H]; [exact H|]. unfold task_le in H. lia. }
      eapply Permutation_Forall; [apply insert_task_perm|].
      constructor; assumption.
Qed.

Lemma sortQueue_perm (q : list BroadcastTask) : Permutation q (sortQueue q).
Proof.
  induction q as [|t q IH]; simpl; [reflexivity|].
  rewrite <- insert_task_perm. constructor. exact IH.
Qed.

Lemma sortQueue_sorted (q : list BroadcastTask) : cmp_sorted (sortQueue q).
Proof.
  induction q as [|t q IH]; simpl; [constructor | apply insert_task_sorted, IH].
Qed.

Lemma length_sortQueue (q : list BroadcastTask) : length (sortQueue q) = length q.
Proof. symmetry. apply Permutation_length, sortQueue_perm. Qed.

Lemma In_firstn {A : Type} (x : A) (n : nat) (l : list A) :
  In x (firstn n l) -> In x l.
Proof.
  revert n; induction l as [|y r IH]; intros [|n]; simpl; try tauto.
  intros [H | H]; eauto.
Qed.

Lemma cmp_sorted_firstn (n : nat) (q : list BroadcastTask) :
  cmp_sorted q -> cmp_sorted (firstn n q).
Proof.
  unfold cmp_sorted. intros H. revert n.
  induction H as [|x r Hs IH Hx]; intros [|n]; simpl; try constructor; auto.
  apply List.Forall_forall. intros y Hy.
  rewrite List.Forall_forall in Hx. apply Hx. eapply In_firstn; eauto.
Qed.

Lemma cmp_sorted_filter (p : BroadcastTask -> bool) (q : list BroadcastTask) :
  cmp_sorted q -> cmp_sorted (List.filter p q).
Proof.
  unfold cmp_sorted. induction 1 as [|x r Hs IH Hx]; simpl; [constructor|].
  destruct (p x); [|exact IH]. constructor; [exact IH|].
  apply List.Forall_forall. intros y Hy. apply List.filter_In in Hy as [Hy _].
  rewrite List.Forall_forall in Hx. auto.
Qed.

(** *** Grouping by type *)

(** The types of a batch, each once, in the order of first appearance. *)
Definition types_in_order (tasks : list BroadcastTask) : list string :=
  fold_left
    (fun acc t =>
       if existsb (fun k => String.eqb k (type t)) acc then acc else acc ++ [type t])
    tasks [].

Definition of_type (ty : string) (t : BroadcastTask) : bool := String.eqb (type t) ty.

(** The groups as the spec describes them: for every type of the batch, the
    tasks of that type in batch order. *)
Definition grouped (tasks : list BroadcastTask) : Groups :=
  map (fun ty => (ty, List.filter (of_type ty) tasks)) (types_in_order tasks).

Lemma types_in_order_snoc (p : list BroadcastTask) (t : BroadcastTask) :
  types_in_order (p ++ [t]) =
  if existsb (fun k => String.eqb k (type t)) (types_in_order p)
  then types_in_order p else types_in_order p ++ [type t].
Proof. unfold types_in_order. rewrite fold_left_app. reflexivity. Qed.

Lemma existsb_eqb_In (k : string) (keys : list string) :
  existsb (fun k' => String.eqb k' k) keys = true <-> In k keys.
Proof.
  rewrite existsb_exists. split.
  - intros (x & Hin & Hx). apply String.eqb_eq in Hx. subst. exact Hin.
  - intros H. exists k. split; [exact H | apply String.eqb_refl].
Qed.

Lemma types_in_order_In (k : string) (p : list BroadcastTask) :
  In k (types_in_order p) <-> exists t, In t p /\ type t = k.
Proof.
  induction p as [|t p IH] using rev_ind.
  - simpl. split; [tauto | intros (t & [] & _)].
  - rewrite types_in_order_snoc.
    destruct (existsb _ (types_in_order p)) eqn:He.
    + apply existsb_eqb_In in He. rewrite IH. split.
      * intros (x & Hx & Hk). exists x. split; [apply in_or_app; auto | exact Hk].
      * intros (x & Hx & Hk). apply in_app_or in Hx as [Hx | [<- | []]]; eauto.
        subst. apply IH. exact He.
    + rewrite in_app_iff, IH. simpl. split.
      * intros [(x & Hx & Hk) | [Hk | []]].
        -- exists x. split; [apply in_or_app; auto | exact Hk].
        -- exists t. split; [apply in_or_app; simpl; auto | exact Hk].
      * intros (x & Hx & Hk). apply in_app_or in Hx as [Hx | [<- | []]]; eauto.
Qed.

Lemma types_in_order_NoDup (p : list BroadcastTask) : NoDup (types_in_order p).
Proof.
  induction p as [|t p IH] using rev_ind; [constructor|].
  rewrite types_in_order_snoc.
  destruct (existsb _ (types_in_order p)) eqn:He; [exact IH|].
  apply NoDup_app. split; [exact IH|]. split.
  - intros x Hx Hx'. apply list_elem_of_In in Hx.
    apply list_elem_of_In in Hx'. destruct Hx' as [<- | []].
    apply existsb_eqb_In in Hx. congruence.
  - apply NoDup_singleton.
Qed.

Lemma filter_of_type_snoc (ty : string) (p : list BroadcastTask) (t : BroadcastTask) :
  List.filter (of_type ty) (p ++ [t]) =
  if String.eqb (type t) ty then List.filter (of_type ty) p ++ [t]
  else List.filter (of_type ty) p.
Proof.
  rewrite List.filter_app. simpl. unfold of_type at 2.
  destruct (String.eqb (type t) ty); [reflexivity | apply app_nil_r].
Qed.

Lemma groups_has_map (k : string) (F : string -> list BroadcastTask)
    (keys : list string) :
  groups_has (map (fun ty => (ty, F ty)) keys) k =
  existsb (fun k' => String.eqb k' k) keys.
Proof.
  unfold groups_has. induction keys as [|x r IH]; simpl; [reflexivity|].
  rewrite IH. reflexivity.
Qed.

Lemma groups_set_absent (k : string) (v : list BroadcastTask)
    (F : string -> list BroadcastTask) (keys : list string) :
  existsb (fun k' => String.eqb k' k) keys = false ->
  groups_set k v (map (fun ty => (ty, F ty)) keys) =
  map (fun ty => (ty, F ty)) keys ++ [(k, v)].
Proof.
  induction keys as [|x r IH]; simpl; [reflexivity|].
  intros H. apply orb_false_iff in H as [Hx Hr].
  rewrite Hx, IH by exact Hr. reflexivity.
Qed.

Lemma groups_push_map (p : list BroadcastTask) (t : BroadcastTask)
    (keys : list string) :
  NoDup keys ->
  groups_push (type t) t (map (fun ty => (ty, List.filter (of_type ty) p)) keys) =
  map (fun ty => (ty, List.filter (of_type ty) (p ++ [t]))) keys.
Proof.
  induction 1 as [|x r Hx Hr IH]; simpl; [reflexivity|].
  rewrite filter_of_type_snoc.
  destruct (String.eqb x (type t)) eqn:Hk.
  - apply String.eqb_eq in Hk. subst x. rewrite String.eqb_refl. f_equal.
    apply map_ext_in. intros ty Hty. rewrite filter_of_type_snoc.
    destruct (String.eqb (type t) ty) eqn:E; [|reflexivity].
    apply String.eqb_eq in E. subst ty. apply list_elem_of_In in Hty. contradiction.
  - rewrite String.eqb_sym, Hk, IH. reflexivity.
Qed.

(** [groupByType] builds exactly those groups. *)
Lemma groupByType_grouped (tasks : list BroadcastTask) :
  groupByType tasks = grouped tasks.
Proof.
  induction tasks as [|t p IH] using rev_ind; [reflexivity|].
  unfold groupByType in *. rewrite fold_left_app. simpl. rewrite IH.
  unfold grouped. rewrite groups_has_map, types_in_order_snoc.
  destruct (existsb _ (types_in_order p)) eqn:He.
  - apply groups_push_map, types_in_order_NoDup.
  - rewrite groups_set_absent by exact He.
    assert (Hnone : List.filter (of_type (type t)) p = []).
    { destruct (List.filter (of_type (type t)) p) as [|x r] eqn:Hf; [reflexivity|].
      assert (Hin : In x (List.filter (of_type (type t)) p)) by (rewrite Hf; left; auto).
      apply List.filter_In in Hin as [Hin Hx]. apply String.eqb_eq in Hx.
      assert (In (type t) (types_in_order p)) as Hk
        by (apply types_in_order_In; eauto).
      apply existsb_eqb_In in Hk. congruence. }
    replace [(type t, @nil BroadcastTask)]
      with (map (fun ty => (ty, List.filter (of_type ty) p)) [type t])
      by (simpl; rewrite Hnone; reflexivity).
    rewrite <- map_app. apply groups_push_map.
    apply NoDup_app. split; [apply types_in_order_NoDup|]. split.
    + intros x Hx Hx'. apply list_elem_of_In in Hx.
      apply list_elem_of_In in Hx'. destruct Hx' as [<- | []].
      apply existsb_eqb_In in Hx. congruence.
    + apply NoDup_singleton.
Qed.

(** *** The queue of the hub has no bound *)

Section Drain.

Variable getConnectionsBySubscription : string -> list ConnectionMetadata.
Variable stringify : ServerMessage -> string.
Variable generateUUID : string -> string.
Variable now : string -> Z.

Abbreviation enqueue := (enqueue getConnectionsBySubscription stringify generateUUID now).
Abbreviation processQueue :=
  (processQueue getConnectionsBySubscription stringify generateUUID now).
Abbreviation broadcastBatch :=
  (broadcastBatch getConnectionsBySubscription stringify generateUUID now).
Abbreviation createMergedMessage := (createMergedMessage generateUUID now).

(** A burst of [enqueue] calls, as the change detector issues them between
    two ticks of the flush timer. *)
Definition enqueue_all (config : WebSocketConfig) (tasks : list BroadcastTask)
    (s : Scheduler) : Scheduler :=
  fold_left (fun s task => snd (enqueue config task s)) tasks s.

Definition low_status_task : BroadcastTask :=
  mkTask "status" "status_update" JNull low 0.

Lemma enqueue_not_high (config : WebSocketConfig) (task : BroadcastTask)
    (s : Scheduler) :
  MessagePriority_eqb (priority task) high = false ->
  enqueue config task s = ([], push task s).
Proof. intros H. unfold HubScheduler.enqueue. rewrite H. reflexivity. Qed.

Lemma enqueue_all_low (config : WebSocketConfig) (n : nat) (s : Scheduler) :
  length (messageQueue (enqueue_all config (repeat low_status_task n) s)) =
  length (messageQueue s) + n.
Proof.
  revert s. induction n as [|n IH]; intros s; simpl; [lia|].
  unfold enqueue_all in *. simpl. rewrite IH. simpl.
  rewrite length_app. simpl. lia.
Qed.

(** C1 (on the hub's scheduler).  [enqueue] of the WebSocket scheduler only
    appends: a task that is not [high] is added at the end whatever the
    length of the queue, so [n] enqueues of a [low] task leave [n] tasks
    queued, for every [n]; 1001 of them exceed the bound of 1000 that
    [RootScheduler] keeps. *)
Theorem hub_enqueue_unbounded (config : WebSocketConfig) :
  (forall (task : BroadcastTask) (s : Scheduler),
     priority task <> high ->
     messageQueue (snd (enqueue config task s)) = messageQueue s ++ [task]) /\
  (forall n : nat,
     length (messageQueue (enqueue_all config (repeat low_status_task n) new)) = n) /\
  RootScheduler.DEFAULT_MAX_QUEUE_SIZE <
    length (messageQueue (enqueue_all config (repeat low_status_task 1001) new)).
Proof.
  split; [|split].
  - intros task s Hp. rewrite enqueue_not_high; [reflexivity|].
    destruct (priority task); simpl; congruence.
  - intros n. rewrite enqueue_all_low. reflexivity.
  - rewrite enqueue_all_low. unfold RootScheduler.DEFAULT_MAX_QUEUE_SIZE. simpl. lia.
Qed.

(** *** The envelopes of a drain *)

Definition writable (c : ConnectionMetadata) : bool := isAlive c && socketOpen c.

Definition has_subscriber (ty : string) : bool :=
  negb (length (getConnectionsBySubscription ty) =? 0).

(** The envelopes a batch gives rise to: one for every group with a
    subscriber. *)
Definition envelopes (batch : list BroadcastTask) : list ServerMessage :=
  map (fun g => createMergedMessage (fst g) (snd g))
      (List.filter (fun g => has_subscriber (fst g)) (groupByType batch)).

(** The timestamps listed in [data.events] of an envelope. *)
Definition event_timestamps (m : ServerMessage) : list Z :=
  match msg_data m with
  | BatchData events => map be_timestamp events
  | TaskData _ => []
  end.

Lemma flat_map_sendToConnection (serialized : string)
    (connections : list ConnectionMetadata) :
  flat_map (fun conn => sendToConnection conn serialized) connections =
  map (fun c => (conn_id c, serialized)) (List.filter writable connections).
Proof.
  induction connections as [|c r IH]; simpl; [reflexivity|].
  unfold sendToConnection at 1, writable at 1.
  destruct (isAlive c && socketOpen c); simpl; rewrite IH; reflexivity.
Qed.

Lemma broadcastBatch_writes (batch : list BroadcastTask) :
  broadcastBatch batch =
  flat_map
    (fun g => map (fun c => (conn_id c, stringify (createMergedMessage (fst g) (snd g))))
                  (List.filter writable (getConnectionsBySubscription (fst g))))
    (List.filter (fun g => has_subscriber (fst g)) (groupByType batch)).
Proof.
  unfold HubScheduler.broadcastBatch.
  assert (Hgen : forall gs : Groups,
    flat_map
      (fun group : string * list BroadcastTask =>
         let (type, typeTasks) := group in
         match getConnectionsBySubscription type with
         | [] => []
         | _ =>
             flat_map
               (fun conn => sendToConnection conn
                              (stringify (createMergedMessage type typeTasks)))
               (getConnectionsBySubscription type)
         end) gs =
    flat_map
      (fun g => map (fun c => (conn_id c, stringify (createMergedMessage (fst g) (snd g))))
                    (List.filter writable (getConnectionsBySubscription (fst g))))
      (List.filter (fun g => has_subscriber (fst g)) gs)).
  { induction gs as [|[ty tasks] r IH]; simpl; [reflexivity|].
    rewrite IH. unfold has_subscriber at 2. simpl.
    destruct (getConnectionsBySubscription ty) as [|c cs] eqn:Hc; simpl.
    - reflexivity.
    - rewrite Hc. f_equal.
      rewrite <- flat_map_sendToConnection. reflexivity. }
  destruct batch as [|t r]; [reflexivity|]. apply Hgen.
Qed.

Lemma processQueue_begin_Some (config : WebSocketConfig) (s : Scheduler) :
  isProcessing s = false -> messageQueue s <> [] ->
  processQueue_begin config s =
  Some (firstn (batchSize config) (sortQueue (messageQueue s)),
        mkScheduler (skipn (batchSize config) (sortQueue (messageQueue s))) true).
Proof.
  intros Hp Hq. unfold processQueue_begin. rewrite Hp.
  destruct (messageQueue s) as [|t r] eqn:E; [contradiction|]. reflexivity.
Qed.

Lemma processQueue_begin_batch (config : WebSocketConfig) (s s' : Scheduler)
    (batch : list BroadcastTask) :
  processQueue_begin config s = Some (batch, s') ->
  batch = firstn (batchSize config) (sortQueue (messageQueue s)) /\
  s' = mkScheduler (skipn (batchSize config) (sortQueue (messageQueue s))) true.
Proof.
  unfold processQueue_begin.
  destruct (isProcessing s || (length (messageQueue s) =? 0)); [discriminate|].
  intros H. injection H as <- <-. split; reflexivity.
Qed.

Lemma grouped_In (batch : list BroadcastTask) (ty : string)
    (tasks : list BroadcastTask) :
  In (ty, tasks) (groupByType batch) ->
  tasks = List.filter (of_type ty) batch /\ tasks <> [].
Proof.
  rewrite groupByType_grouped. unfold grouped. intros H.
  apply in_map_iff in H as (k & Hk & Hin). injection Hk as -> <-.
  split; [reflexivity|].
  apply types_in_order_In in Hin as (t & Ht & Hty).
  intros Hnil.
  assert (Hf : In t (List.filter (of_type ty) batch)).
  { apply List.filter_In. split; [exact Ht|]. unfold of_type. rewrite Hty.
    apply String.eqb_refl. }
  rewrite Hnil in Hf. destruct Hf.
Qed.

(** The order of a drain in words: [high] before [normal] before [low],
    and within one priority the earlier [timestamp] first. *)
Definition outranks (a b : MessagePriority) : Prop :=
  match a, b with
  | high, normal | high, low | normal, low => True
  | _, _ => False
  end.

Definition by_priority_then_time (a b : BroadcastTask) : Prop :=
  outranks (priority a) (priority b) \/
  (priority a = priority b /\ (timestamp a <= timestamp b)%Z).

(** [e] is the entry [{ event, data, timestamp }] that [data.events] holds
    for the task [t]. *)
Definition entry_of (e : BatchEvent) (t : BroadcastTask) : Prop :=
  be_event e = event t /\ be_data e = data t /\ be_timestamp e = timestamp t.

Lemma outranks_priorityWeight (a b : MessagePriority) :
  outranks a b <-> (priorityWeight a < priorityWeight b)%Z.
Proof. destruct a, b; simpl; split; intros H; try lia; try exact I; destruct H. Qed.

Lemma sortQueue_by_priority_then_time (q : list BroadcastTask) :
  StronglySorted by_priority_then_time (sortQueue q).
Proof.
  pose proof (sortQueue_sorted q) as H. unfold cmp_sorted in H.
  induction H as [|x r Hs IH Hx]; constructor; [exact IH|].
  eapply List.Forall_impl; [|exact Hx]. intros y Hy.
  apply task_le_iff in Hy as [Hlt | Heq]; [left | right; exact Heq].
  apply outranks_priorityWeight, Hlt.
Qed.

Lemma Forall2_entry_of (tasks : list BroadcastTask) :
  Forall2 entry_of (map toBatchEvent tasks) tasks.
Proof.
  induction tasks as [|t r IH]; simpl; constructor; [|exact IH].
  repeat split; reflexivity.
Qed.

Lemma createMergedMessage_shape (ty : string) (tasks : list BroadcastTask) :
  msg_type (createMergedMessage ty tasks) = ty /\
  (forall t, tasks = [t] ->
     msg_event (createMergedMessage ty tasks) = event t /\
     msg_data (createMergedMessage ty tasks) = TaskData (data t)) /\
  (1 < length tasks ->
     msg_event (createMergedMessage ty tasks) = "batch_update" /\
     exists events,
       msg_data (createMergedMessage ty tasks) = BatchData events /\
       Forall2 entry_of events tasks).
Proof.
  split; [|split].
  - destruct tasks as [|a [|b r]]; reflexivity.
  - intros t ->. split; reflexivity.
  - intros H. destruct tasks as [|a [|b r]]; simpl in H; try lia.
    split; [reflexivity|]. eexists. split; [reflexivity|].
    apply Forall2_entry_of.
Qed.

(** C6.  A drain that starts ([isProcessing] is off, the queue is not
    empty) sorts the whole queue by priority ([high] before [normal] before
    [low]) and then by timestamp, takes the first [broadcastBatchSize] tasks
    at most, and groups them by type.  Every group with a subscriber yields
    one envelope: the task's own [event] and [data] for a group of one, a
    [batch_update] for a larger group, whose [data.events] holds for every
    task of the group, in the order of the group, an entry with that task's
    [event], [data] and [timestamp]; the text of that one envelope is what
    every open recipient of the group is sent. *)
Theorem drain_sorts_groups_and_merges (config : WebSocketConfig) (s : Scheduler) :
  isProcessing s = false -> messageQueue s <> [] ->
  exists batch rest,
    processQueue_begin config s = Some (batch, mkScheduler rest true) /\
    batch ++ rest = sortQueue (messageQueue s) /\
    Permutation (messageQueue s) (batch ++ rest) /\
    StronglySorted by_priority_then_time (batch ++ rest) /\
    length batch = Nat.min (batchSize config) (length (messageQueue s)) /\
    (broadcastBatchSize config <> 0 -> batchSize config = broadcastBatchSize config) /\
    groupByType batch = grouped batch /\
    (forall ty tasks, In (ty, tasks) (groupByType batch) ->
       tasks = List.filter (of_type ty) batch /\ tasks <> []) /\
    processQueue config s =
      (flat_map
         (fun g =>
            map (fun c => (conn_id c, stringify (createMergedMessage (fst g) (snd g))))
                (List.filter writable (getConnectionsBySubscription (fst g))))
         (List.filter (fun g => has_subscriber (fst g)) (groupByType batch)),
       mkScheduler rest false) /\
    (forall ty tasks,
       msg_type (createMergedMessage ty tasks) = ty /\
       (forall t, tasks = [t] ->
          msg_event (createMergedMessage ty tasks) = event t /\
          msg_data (createMergedMessage ty tasks) = TaskData (data t)) /\
       (1 < length tasks ->
          msg_event (createMergedMessage ty tasks) = "batch_update" /\
          exists events,
            msg_data (createMergedMessage ty tasks) = BatchData events /\
            Forall2
              (fun e t =>
                 be_event e = event t /\ be_data e = data t /\
                 be_timestamp e = timestamp t)
              events tasks)).
Proof.
  intros Hp Hq.
  exists (firstn (batchSize config) (sortQueue (messageQueue s))),
         (skipn (batchSize config) (sortQueue (messageQueue s))).
  pose proof (processQueue_begin_Some config s Hp Hq) as Hbegin.
  split; [exact Hbegin|]. rewrite firstn_skipn.
  split; [reflexivity|].
  split; [apply sortQueue_perm|].
  split; [apply sortQueue_by_priority_then_time|].
  split; [rewrite length_firstn, length_sortQueue; reflexivity|].
  split; [unfold batchSize; destruct (broadcastBatchSize config); congruence|].
  split; [apply groupByType_grouped|].
  split; [apply grouped_In|].
  split; [|apply createMergedMessage_shape].
  unfold HubScheduler.processQueue. rewrite Hbegin. simpl.
  rewrite broadcastBatch_writes. reflexivity.
Qed.

Lemma StronglySorted_map_timestamps (tasks : list BroadcastTask) :
  cmp_sorted tasks ->
  (forall a b, In a tasks -> In b tasks -> priority a = priority b) ->
  StronglySorted Z.le (map timestamp tasks).
Proof.
  unfold cmp_sorted. induction 1 as [|x r Hs IH Hx]; intros Hsame; simpl.
  - constructor.
  - constructor.
    + apply IH. intros a b Ha Hb. apply Hsame; right; assumption.
    + apply List.Forall_forall. intros z Hz.
      apply in_map_iff in Hz as (y & <- & Hy).
      rewrite List.Forall_forall in Hx. specialize (Hx y Hy).
      apply task_le_iff in Hx as [Hlt | [_ Hle]]; [|exact Hle].
      rewrite (Hsame x y) in Hlt by (simpl; auto). lia.
Qed.

(** C4, as the code has it.  The events of a [batch_update] follow the order
    of the drain: priority first, then timestamp.  Among tasks of one
    priority the timestamps do not decrease; across priorities the event
    of the higher priority comes first, whatever its timestamp. *)
Theorem batch_update_in_drain_order (config : WebSocketConfig) (s s' : Scheduler)
    (batch : list BroadcastTask) (ty : string) (tasks : list BroadcastTask)
    (events : list BatchEvent) :
  processQueue_begin config s = Some (batch, s') ->
  In (ty, tasks) (groupByType batch) ->
  msg_data (createMergedMessage ty tasks) = BatchData events ->
  events = map toBatchEvent tasks /\
  drain_sorted tasks /\
  ((forall a b, In a tasks -> In b tasks -> priority a = priority b) ->
   StronglySorted Z.le (map be_timestamp events)).
Proof.
  intros Hbegin Hin Hdata.
  apply processQueue_begin_batch in Hbegin as [-> _].
  apply grouped_In in Hin as [Htasks _].
  assert (Hsorted : cmp_sorted tasks).
  { rewrite Htasks. apply cmp_sorted_filter, cmp_sorted_firstn, sortQueue_sorted. }
  assert (Hev : events = map toBatchEvent tasks).
  { unfold HubScheduler.createMergedMessage in Hdata.
    destruct tasks as [|a [|b r]]; simpl in Hdata;
      first [discriminate | injection Hdata as <-; reflexivity]. }
  split; [exact Hev|]. split; [apply cmp_sorted_drain_sorted, Hsorted|].
  intros Hsame. rewrite Hev, map_map. simpl.
  apply StronglySorted_map_timestamps; assumption.
Qed.

End Drain.

(** *** A concrete hub: one open connection subscribed to everything *)

Definition one_client (ty : string) : list ConnectionMetadata :=
  [mkConnection "conn-1" true true].
Definition show_event (m : ServerMessage) : string := msg_event m.
Definition fixed_uuid (ty : string) : string := "id-" +:+ ty.
Definition fixed_now (ty : string) : Z := 1000.

Definition normal_50 : BroadcastTask := mkTask "status" "status_update" JNull normal 50.
Definition normal_20 : BroadcastTask := mkTask "status" "status_update" JNull normal 20.
Definition high_100 : BroadcastTask := mkTask "status" "status_update" JNull high 100.

(** Batch merge: three [status] tasks coalesce into one [batch_update]. *)
Example scenario_batch_merge :
  processQueue one_client show_event fixed_uuid fixed_now defaultConfig
    (mkScheduler [normal_50; normal_20; normal_50] false) =
  ([("conn-1", "batch_update")], mkScheduler [] false) /\
  map event_timestamps
    (envelopes one_client fixed_uuid fixed_now [normal_20; normal_50; normal_50]) =
  [[20; 50; 50]%Z].
Proof. split; reflexivity. Qed.

(** C4, counterexample.  A [normal] task stamped 50 is queued; a [high] task
    of the same type stamped 100 is enqueued and starts the drain.  The one
    [batch_update] lists the event stamped 100 before the one stamped 50. *)
Lemma batch_update_not_in_timestamp_order :
  let s1 := snd (enqueue one_client show_event fixed_uuid fixed_now defaultConfig
                   normal_50 new) in
  exists batch s',
    processQueue_begin defaultConfig (push high_100 s1) = Some (batch, s') /\
    fst (enqueue one_client show_event fixed_uuid fixed_now defaultConfig high_100 s1) =
      [("conn-1", "batch_update")] /\
    map event_timestamps (envelopes one_client fixed_uuid fixed_now batch) =
      [[100; 50]%Z] /\
    ~ StronglySorted Z.le [100; 50]%Z.
Proof.
  exists [high_100; normal_50], (mkScheduler [] true).
  repeat split; try reflexivity.
  intros H. inversion H as [|? ? _ Hall]; subst.
  inversion Hall as [|? ? Hle _]; subst. lia.
Qed.

Lemma batch_update_in_drain_order_witness :
  [toBatchEvent normal_20; toBatchEvent normal_50] =
    map toBatchEvent [normal_20; normal_50] /\
  drain_sorted [normal_20; normal_50] /\
  ((forall a b, In a [normal_20; normal_50] -> In b [normal_20; normal_50] ->
      priority a = priority b) ->
   StronglySorted Z.le
     (map be_timestamp [toBatchEvent normal_20; toBatchEvent normal_50])).
Proof.
  exact (batch_update_in_drain_order fixed_uuid fixed_now defaultConfig
           (mkScheduler [normal_50; normal_20] false) (mkScheduler [] true)
           [normal_20; normal_50] "status" [normal_20; normal_50]
           [toBatchEvent normal_20; toBatchEvent normal_50]
           eq_refl (or_introl eq_refl) eq_refl).
Defined.

(** A drain of two [health] tasks queued out of order: the alert, [high],
    is drained first, and both go out in one [batch_update]. *)
Definition cpu_alert : BroadcastTask :=
  mkTask "health" "health_alert" (JStr "cpu") high 100.
Definition cpu_recovery : BroadcastTask :=
  mkTask "health" "health_recovery" (JStr "cpu") normal 50.
Definition recovery_then_alert : Scheduler :=
  mkScheduler [cpu_recovery; cpu_alert] false.

Lemma drain_sorts_groups_and_merges_witness :
  isProcessing recovery_then_alert = false /\
  messageQueue recovery_then_alert <> [] /\
  exists batch rest,
    processQueue_begin defaultConfig recovery_then_alert =
      Some (batch, mkScheduler rest true) /\
    batch ++ rest = [cpu_alert; cpu_recovery] /\
    processQueue one_client show_event fixed_uuid fixed_now defaultConfig
      recovery_then_alert = ([("conn-1", "batch_update")], mkScheduler rest false) /\
    exists events,
      msg_data (createMergedMessage fixed_uuid fixed_now "health"
                  [cpu_alert; cpu_recovery]) = BatchData events /\
      map be_event events = ["health_alert"; "health_recovery"] /\
      map be_timestamp events = [100; 50]%Z.
Proof.
  assert (Hne : messageQueue recovery_then_alert <> []) by discriminate.
  split; [reflexivity|]. split; [exact Hne|].
  destruct (drain_sorts_groups_and_merges one_client show_event fixed_uuid fixed_now
              defaultConfig recovery_then_alert eq_refl Hne)
    as (batch & rest & Hbegin & Hsplit & _ & _ & _ & _ & _ & _ & Hproc & Hshape).
  exists batch, rest.
  split; [exact Hbegin|]. split; [exact Hsplit|].
  assert (E : processQueue_begin defaultConfig recovery_then_alert =
              Some ([cpu_alert; cpu_recovery], mkScheduler [] true)) by reflexivity.
  rewrite E in Hbegin. injection Hbegin as Hb Hr. subst batch rest.
  split; [exact Hproc|].
  destruct (proj2 (proj2 (Hshape "health" [cpu_alert; cpu_recovery])))
    as (_ & events & Hdata & Hentries); [simpl; lia|].
  exists events. split; [exact Hdata|].
  inversion Hentries as [|e1 t1 r1 l1 (He1 & _ & Ht1) Hrest]; subst.
  inversion Hrest as [|e2 t2 r2 l2 (He2 & _ & Ht2) Hnil]; subst.
  inversion Hnil; subst. simpl. rewrite He1, He2, Ht1, Ht2. split; reflexivity.
Defined.

End HubScheduler.

(* ===================================================================== *)
(** ** [src/message-router.js]: subscriptions and reserved types          *)
(* ===================================================================== *)

Module Router.

(** A callback is known by its identity only. *)
Definition Callback : Type := nat.

(** [this.maxMessageSize] and [this.subscribers], a [Map] from a type to the
    [Set] of its callbacks. *)
Record MessageRouter : Type := mkRouter {
  maxMessageSize : nat;
  subscribers : gmap string (gset Callback)
}.

Definition DEFAULT_MAX_MESSAGE_SIZE : nat := 64 * 1024.

(** [static RESERVED_TYPES = ['error']]. *)
Definition RESERVED_TYPES : list string := ["error"].

Definition new (options : option nat) : MessageRouter :=
  mkRouter (match options with Some n => n | None => DEFAULT_MAX_MESSAGE_SIZE end) ∅.

(** The object [subscribe] returns: [{ success: false, error }] or
    [{ success: true, unsubscribe }]. *)
Inductive SubscribeResult : Type :=
| Refused (error : string)
| Subscribed.

Definition includes (l : list string) (x : string) : bool :=
  existsb (String.eqb x) l.

(** [subscribe(type, callback)]. *)
Definition subscribe (type : string) (callback : Callback) (r : MessageRouter)
    : SubscribeResult * MessageRouter :=
  if includes RESERVED_TYPES type then
    (Refused ("Cannot subscribe to reserved type '" +:+ type +:+
              "'. This type is reserved for system internal use."), r)
  else
    let subs :=
      match subscribers r !! type with
      | Some _ => subscribers r
      | None => <[type := ∅]> (subscribers r)
      end in
    (Subscribed,
     mkRouter (maxMessageSize r) (alter (fun set => set ∪ {[callback]}) type subs)).

(** The closure handed back by a successful [subscribe]:
    [this.subscribers.get(type)?.delete(callback)]. *)
Definition unsubscribe (type : string) (callback : Callback) (r : MessageRouter)
    : MessageRouter :=
  mkRouter (maxMessageSize r)
           (alter (fun set => set ∖ {[callback]}) type (subscribers r)).

(** [getSubscriberCount(type)]. *)
Definition getSubscriberCount (type : string) (r : MessageRouter) : nat :=
  match subscribers r !! type with
  | Some set => size set
  | None => 0
  end.

(** What a client of the router can do to its registry; [publish] and
    [publishError] leave it as it is. *)
Inductive Request : Type :=
| ReqSubscribe (type : string) (callback : Callback)
| ReqUnsubscribe (type : string) (callback : Callback)
| ReqPublish (type : string).

Definition handle (r : MessageRouter) (req : Request) : MessageRouter :=
  match req with
  | ReqSubscribe type callback => snd (subscribe type callback r)
  | ReqUnsubscribe type callback => unsubscribe type callback r
  | ReqPublish _ => r
  end.

Definition run (requests : list Request) (r : MessageRouter) : MessageRouter :=
  fold_left handle requests r.

(** No reserved type has an entry in the registry. *)
Definition reserved_free (r : MessageRouter) : Prop :=
  forall t : string, In t RESERVED_TYPES -> subscribers r !! t = None.

Lemma includes_In (l : list string) (x : string) :
  includes l x = true <-> In x l.
Proof.
  unfold includes. rewrite existsb_exists. split.
  - intros (y & Hy & E). apply String.eqb_eq in E. subst. exact Hy.
  - intros H. exists x. split; [exact H | apply String.eqb_refl].
Qed.

Lemma handle_reserved_free (r : MessageRouter) (req : Request) :
  reserved_free r -> reserved_free (handle r req).
Proof.
  intros Hr t Ht. specialize (Hr t Ht).
  destruct req as [type callback | type callback | type]; simpl; [| |exact Hr].
  - unfold subscribe.
    destruct (includes RESERVED_TYPES type) eqn:Hres; simpl; [exact Hr|].
    assert (Hne : type <> t).
    { intros ->. apply includes_In in Ht. congruence. }
    rewrite lookup_alter_ne by exact Hne.
    destruct (subscribers r !! type); [exact Hr|].
    rewrite lookup_insert_ne by exact Hne. exact Hr.
  - destruct (decide (type = t)) as [->|Hne].
    + rewrite lookup_alter_eq, Hr. reflexivity.
    + rewrite lookup_alter_ne by exact Hne. exact Hr.
Qed.

Lemma run_reserved_free (requests : list Request) (r : MessageRouter) :
  reserved_free r -> reserved_free (run requests r).
Proof.
  revert r. induction requests as [|req rest IH]; intros r Hr; simpl; [exact Hr|].
  apply IH, handle_reserved_free, Hr.
Qed.

(** C5.  Whatever the clients request, the registry never holds the reserved
    type ['error']: a subscription to it is refused and changes nothing,
    and after any sequence of requests ['error'] has no entry and no
    subscriber. *)
Theorem error_never_subscribed (options : option nat) (requests : list Request)
    (callback : Callback) :
  let r := run requests (new options) in
  subscribers r !! "error" = None /\
  getSubscriberCount "error" r = 0 /\
  (exists msg, subscribe "error" callback r = (Refused msg, r)) /\
  subscribers (run (requests ++ [ReqSubscribe "error" callback]) (new options)) !! "error"
    = None.
Proof.
  assert (Hfree : forall reqs, reserved_free (run reqs (new options))).
  { intros reqs. apply run_reserved_free. intros t _. apply lookup_empty. }
  simpl. split; [apply Hfree; simpl; auto|].
  split; [unfold getSubscriberCount; rewrite (Hfree requests "error"); simpl; auto|].
  split; [eexists; reflexivity|].
  apply Hfree. simpl. auto.
Qed.

Example subscribe_other_type :
  getSubscriberCount "notification" (run [ReqSubscribe "notification" 7] (new None)) = 1 /\
  getSubscriberCount "notification"
    (run [ReqSubscribe "notification" 7; ReqUnsubscribe "notification" 7] (new None)) = 0.
Proof. split; vm_compute; reflexivity. Qed.

End Router.

(* ===================================================================== *)
(** ** [change-detector.ts]: status diffing and the health state machine  *)
(* ===================================================================== *)

Module Detector.

Import HubScheduler (MessagePriority, high, normal, low).

(** [a > b] on numbers. *)
Definition Qgtb (a b : Q) : bool := negb (Qle_bool a b).

Lemma Qgtb_lt (a b : Q) : Qgtb a b = true <-> (b < a)%Q.
Proof.
  unfold Qgtb. rewrite negb_true_iff, <- not_true_iff_false, Qle_bool_iff.
  split; [apply Qnot_le_lt | apply Qlt_not_le].
Qed.

Lemma Qgtb_le (a b : Q) : Qgtb a b = false <-> (a <= b)%Q.
Proof. unfold Qgtb. rewrite negb_false_iff. apply Qle_bool_iff. Qed.

Record ChangeDetectorConfig : Type := mkConfig {
  checkInterval : nat;
  cpuThreshold : Q;
  memoryThreshold : Q;
  diskThreshold : Q
}.

(** The constructor's defaults. *)
Definition defaultConfig : ChangeDetectorConfig := mkConfig 1000 80 80 90.

Record SystemStatus : Type := mkStatus {
  systemOnline : bool;
  cpuUsage : Q;
  memoryUsage : Q;
  diskUsage : Q;
  activeConnections : Q;
  uptime : Q;
  timestamp : Z;
  version : string
}.

(** The values found under the monitored keys: numbers and one boolean. *)
Inductive Value : Type :=
| VNum (q : Q)
| VBool (b : bool).

(** [oldValue !== newValue]. *)
Definition strict_neq (a b : Value) : bool :=
  match a, b with
  | VNum x, VNum y => negb (Qeq_bool x y)
  | VBool x, VBool y => negb (Bool.eqb x y)
  | _, _ => true
  end.

(** The number a value is compared as ([c.newValue as number]). *)
Definition toNumber (v : Value) : Q :=
  match v with
  | VNum q => q
  | VBool true => 1
  | VBool false => 0
  end.

(** The keys of [fieldsToMonitor]. *)
Inductive StatusField : Type :=
| cpuUsageField
| memoryUsageField
| diskUsageField
| activeConnectionsField
| systemOnlineField.

Definition field_name (f : StatusField) : string :=
  match f with
  | cpuUsageField => "cpuUsage"
  | memoryUsageField => "memoryUsage"
  | diskUsageField => "diskUsage"
  | activeConnectionsField => "activeConnections"
  | systemOnlineField => "systemOnline"
  end.

(** [status[field]]. *)
Definition get (s : SystemStatus) (f : StatusField) : Value :=
  match f with
  | cpuUsageField => VNum (cpuUsage s)
  | memoryUsageField => VNum (memoryUsage s)
  | diskUsageField => VNum (diskUsage s)
  | activeConnectionsField => VNum (activeConnections s)
  | systemOnlineField => VBool (systemOnline s)
  end.

Definition fieldsToMonitor : list StatusField :=
  [cpuUsageField; memoryUsageField; diskUsageField; activeConnectionsField;
   systemOnlineField].

Record Change : Type := mkChange {
  field : string;
  oldValue : Value;
  newValue : Value;
  delta : option Q
}.

(** [detectStatusChanges(oldStatus, currentStatus)]. *)
Definition detectStatusChanges (oldStatus currentStatus : SystemStatus)
    : list Change :=
  flat_map
    (fun f =>
       let oldValue := get oldStatus f in
       let newValue := get currentStatus f in
       if strict_neq oldValue newValue then
         [mkChange (field_name f) oldValue newValue
            (match oldValue, newValue with
             | VNum o, VNum n => Some (n - o)%Q
             | _, _ => None
             end)]
       else [])
    fieldsToMonitor.

Definition includes (l : list string) (x : string) : bool :=
  existsb (String.eqb x) l.

(** [calculateStatusPriority(changes)]. *)
Definition calculateStatusPriority (config : ChangeDetectorConfig)
    (changes : list Change) : MessagePriority :=
  let criticalFields := ["cpuUsage"; "memoryUsage"] in
  let hasCritical :=
    existsb
      (fun c =>
         if negb (includes criticalFields (field c)) then false
         else
           let newValue := toNumber (newValue c) in
           let threshold :=
             if String.eqb (field c) "cpuUsage" then cpuThreshold config
             else memoryThreshold config in
           Qgtb newValue threshold)
      changes in
  if hasCritical then high
  else if 3 <? length changes then normal
  else low.

(** Alert levels of [getAlertLevel]. *)
Inductive AlertLevel : Type := info | warning | critical.

Definition AlertLevel_eqb (a b : AlertLevel) : bool :=
  match a, b with
  | info, info | warning, warning | critical, critical => true
  | _, _ => false
  end.

(** The [data] handed to [broadcaster.broadcast]. *)
Inductive BroadcastData : Type :=
| FirstStatus (status : SystemStatus)
| StatusChanges (status : SystemStatus) (changes : list Change)
| HealthAlertData (level : AlertLevel) (component : string)
                  (threshold currentValue : Q)
| HealthRecoveryData (component : string).

(** One call [broadcaster.broadcast(type, event, data, priority)]. *)
Record Broadcast : Type := mkBroadcast {
  b_type : string;
  b_event : string;
  b_data : BroadcastData;
  b_priority : MessagePriority
}.

(** [checkStatusChange], given what [fetchCurrentStatus] returned: the
    broadcasts issued and the new [lastStatus]. *)
Definition checkStatusChange (config : ChangeDetectorConfig)
    (currentStatus lastStatus : option SystemStatus)
    : list Broadcast * option SystemStatus :=
  match currentStatus with
  | None => ([], lastStatus)
  | Some current =>
      match lastStatus with
      | None =>
          ([mkBroadcast "status" "status_update" (FirstStatus current) normal],
           Some current)
      | Some last =>
          let changes := detectStatusChanges last current in
          ((if 0 <? length changes then
              [mkBroadcast "status" "status_update" (StatusChanges current changes)
                 (calculateStatusPriority config changes)]
            else []),
           Some current)
      end
  end.

(** *** Priority of a status update *)

(** The monitored field [f] differs between the two samples. *)
Definition changed (f : StatusField) (last current : SystemStatus) : bool :=
  strict_neq (get last f) (get current f).

Definition count_changed (last current : SystemStatus) : nat :=
  length (List.filter (fun f => changed f last current) fieldsToMonitor).

(** In the words of the spec: a changed critical field crosses above its
    threshold, from at most the threshold to more than it. *)
Definition crosses_above (config : ChangeDetectorConfig)
    (last current : SystemStatus) : bool :=
  (changed cpuUsageField last current
   && Qle_bool (cpuUsage last) (cpuThreshold config)
   && Qgtb (cpuUsage current) (cpuThreshold config))
  || (changed memoryUsageField last current
      && Qle_bool (memoryUsage last) (memoryThreshold config)
      && Qgtb (memoryUsage current) (memoryThreshold config)).

Definition claimed_priority (config : ChangeDetectorConfig)
    (last current : SystemStatus) : MessagePriority :=
  if crosses_above config last current then high
  else if 3 <? count_changed last current then normal
  else low.

(** What the code looks at: a changed critical field whose new value is
    above its threshold, wherever the old value was. *)
Definition above_after_change (config : ChangeDetectorConfig)
    (last current : SystemStatus) : bool :=
  (changed cpuUsageField last current
   && Qgtb (cpuUsage current) (cpuThreshold config))
  || (changed memoryUsageField last current
      && Qgtb (memoryUsage current) (memoryThreshold config)).

Definition status_priority (config : ChangeDetectorConfig)
    (last current : SystemStatus) : MessagePriority :=
  if above_after_change config last current then high
  else if 3 <? count_changed last current then normal
  else low.

Lemma length_detectStatusChanges (last current : SystemStatus) :
  length (detectStatusChanges last current) = count_changed last current.
Proof.
  unfold detectStatusChanges, count_changed, changed.
  induction fieldsToMonitor as [|f r IH]; simpl; [reflexivity|].
  destruct (strict_neq (get last f) (get current f)); simpl; rewrite IH; reflexivity.
Qed.

Lemma calculateStatusPriority_detect (config : ChangeDetectorConfig)
    (last current : SystemStatus) :
  calculateStatusPriority config (detectStatusChanges last current) =
  status_priority config last current.
Proof.
  unfold calculateStatusPriority, status_priority.
  rewrite length_detectStatusChanges. f_equal.
  unfold above_after_change, changed, detectStatusChanges, fieldsToMonitor.
  simpl.
  destruct (Qeq_bool (cpuUsage last) (cpuUsage current));
    destruct (Qeq_bool (memoryUsage last) (memoryUsage current));
    destruct (Qeq_bool (diskUsage last) (diskUsage current));
    destruct (Qeq_bool (activeConnections last) (activeConnections current));
    destruct (Bool.eqb (systemOnline last) (systemOnline current));
    simpl;
    destruct (Qgtb (cpuUsage current) (cpuThreshold config));
    destruct (Qgtb (memoryUsage current) (memoryThreshold config));
    reflexivity.
Qed.

(** C9, as the code has it.  When a monitored field changed, exactly one
    [status_update] is enqueued; its priority is [high] if a changed
    critical field (CPU or memory usage) is now above its threshold,
    [normal] if more than three fields changed, [low] otherwise. *)
Theorem status_update_priority (config : ChangeDetectorConfig)
    (last current : SystemStatus) :
  0 < count_changed last current ->
  fst (checkStatusChange config (Some current) (Some last)) =
    [mkBroadcast "status" "status_update"
       (StatusChanges current (detectStatusChanges last current))
       (status_priority config last current)] /\
  length (detectStatusChanges last current) = count_changed last current.
Proof.
  intros Hchanged. split; [|apply length_detectStatusChanges].
  unfold checkStatusChange. simpl.
  rewrite length_detectStatusChanges, calculateStatusPriority_detect.
  destruct (0 <? count_changed last current) eqn:E; [reflexivity|].
  apply Nat.ltb_ge in E. lia.
Qed.

(** CPU usage falls from 90 to 85 with the threshold at 80; nothing else
    changes. *)
Definition cpu_at_90 : SystemStatus := mkStatus true 90 50 65 0 10 1000 "2.0.0".
Definition cpu_at_85 : SystemStatus := mkStatus true 85 50 65 0 10 1000 "2.0.0".

(** C9, counterexample.  One field changed and no critical field crossed its
    threshold (CPU was above it and still is), so the claim asks for [low];
    the update is enqueued with [high]. *)
Lemma status_priority_without_crossing :
  count_changed cpu_at_90 cpu_at_85 = 1 /\
  crosses_above defaultConfig cpu_at_90 cpu_at_85 = false /\
  claimed_priority defaultConfig cpu_at_90 cpu_at_85 = low /\
  map b_priority
    (fst (checkStatusChange defaultConfig (Some cpu_at_85) (Some cpu_at_90))) = [high].
Proof. repeat split; reflexivity. Qed.

Lemma status_update_priority_witness :
  0 < count_changed cpu_at_90 cpu_at_85 /\
  fst (checkStatusChange defaultConfig (Some cpu_at_85) (Some cpu_at_90)) =
    [mkBroadcast "status" "status_update"
       (StatusChanges cpu_at_85 (detectStatusChanges cpu_at_90 cpu_at_85))
       (status_priority defaultConfig cpu_at_90 cpu_at_85)].
Proof.
  assert (H : 0 < count_changed cpu_at_90 cpu_at_85) by (vm_compute; lia).
  split; [exact H|].
  exact (proj1 (status_update_priority defaultConfig cpu_at_90 cpu_at_85 H)).
Defined.

(** *** The health state machine *)

(** [getAlertLevel(value, threshold)]. *)
Definition getAlertLevel (value threshold : Q) : AlertLevel :=
  if Qgtb value (threshold + 15) then critical
  else if Qgtb value threshold then warning
  else info.

(** An entry of [lastHealthStatus]: [{ value, level }]. *)
Record HealthEntry : Type := mkEntry {
  h_value : Q;
  h_level : AlertLevel
}.

(** An element of [checks]. *)
Record Check : Type := mkCheck {
  name : string;
  value : Q;
  threshold : Q
}.

Definition checks (config : ChangeDetectorConfig) (currentStatus : SystemStatus)
    : list Check :=
  [mkCheck "cpu" (cpuUsage currentStatus) (cpuThreshold config);
   mkCheck "memory" (memoryUsage currentStatus) (memoryThreshold config);
   mkCheck "disk" (diskUsage currentStatus) (diskThreshold config)].

Definition health_alert (check : Check) (currentLevel : AlertLevel) : Broadcast :=
  mkBroadcast "health" "health_alert"
    (HealthAlertData currentLevel (name check) (threshold check) (value check))
    (if AlertLevel_eqb currentLevel critical then high else normal).

Definition health_recovery (check : Check) : Broadcast :=
  mkBroadcast "health" "health_recovery" (HealthRecoveryData (name check)) normal.

(** The body of the loop over [checks]: the broadcasts of one check and the
    updated [lastHealthStatus]. *)
Definition check_step (check : Check) (lastHealthStatus : gmap string HealthEntry)
    : list Broadcast * gmap string HealthEntry :=
  let lastStatus := lastHealthStatus !! name check in
  let currentLevel := getAlertLevel (value check) (threshold check) in
  if match lastStatus with
     | None => true
     | Some l => negb (AlertLevel_eqb (h_level l) currentLevel)
     end
  then
    ((if negb (AlertLevel_eqb currentLevel info) then
        [health_alert check currentLevel]
      else
        match lastStatus with
        | Some l =>
            if negb (AlertLevel_eqb (h_level l) info) then [health_recovery check]
            else []
        | None => []
        end),
     <[name check := mkEntry (value check) currentLevel]> lastHealthStatus)
  else ([], lastHealthStatus).

Definition run_checks (cs : list Check) (lastHealthStatus : gmap string HealthEntry)
    : list Broadcast * gmap string HealthEntry :=
  fold_left
    (fun acc check =>
       let r := check_step check (snd acc) in
       (fst acc ++ fst r, snd r))
    cs ([], lastHealthStatus).

(** [checkHealthAlerts], reading [this.lastStatus]. *)
Definition checkHealthAlerts (config : ChangeDetectorConfig)
    (lastStatus : option SystemStatus)
    (lastHealthStatus : gmap string HealthEntry)
    : list Broadcast * gmap string HealthEntry :=
  match lastStatus with
  | None => ([], lastHealthStatus)
  | Some currentStatus => run_checks (checks config currentStatus) lastHealthStatus
  end.

(** The component a health broadcast is about. *)
Definition component_of (b : Broadcast) : option string :=
  match b_data b with
  | HealthAlertData _ component _ _ => Some component
  | HealthRecoveryData component => Some component
  | _ => None
  end.

(** The broadcasts about one component. *)
Definition about (component : string) (bs : list Broadcast) : list Broadcast :=
  List.filter
    (fun b => match component_of b with
              | Some c => String.eqb c component
              | None => false
              end)
    bs.

(** One tick of the detector on a sample, and a run over a list of samples:
    [checkStatusChange] stores the sample, [checkHealthAlerts] reads it. *)
Definition health_tick (config : ChangeDetectorConfig) (sample : SystemStatus)
    (lastHealthStatus : gmap string HealthEntry)
    : list Broadcast * gmap string HealthEntry :=
  checkHealthAlerts config (Some sample) lastHealthStatus.

Fixpoint health_run (config : ChangeDetectorConfig) (samples : list SystemStatus)
    (lastHealthStatus : gmap string HealthEntry) : list (list Broadcast) :=
  match samples with
  | [] => []
  | sample :: rest =>
      let r := health_tick config sample lastHealthStatus in
      fst r :: health_run config rest (snd r)
  end.

Lemma getAlertLevel_spec (v t : Q) :
  ((t + 15 < v)%Q -> getAlertLevel v t = critical) /\
  ((t < v)%Q -> (v <= t + 15)%Q -> getAlertLevel v t = warning) /\
  ((v <= t)%Q -> getAlertLevel v t = info).
Proof.
  unfold getAlertLevel. repeat split.
  - intros H. apply Qgtb_lt in H. rewrite H. reflexivity.
  - intros H1 H2. apply Qgtb_lt in H1. apply Qgtb_le in H2.
    rewrite H2, H1. reflexivity.
  - intros H.
    assert (H15 : (v <= t + 15)%Q) by lra.
    apply Qgtb_le in H. apply Qgtb_le in H15. rewrite H15, H. reflexivity.
Qed.

Lemma about_app (n : string) (a b : list Broadcast) :
  about n (a ++ b) = about n a ++ about n b.
Proof. apply List.filter_app. Qed.

Lemma check_step_about_own (c : Check) (m : gmap string HealthEntry) :
  about (name c) (fst (check_step c m)) = fst (check_step c m).
Proof.
  unfold check_step, about.
  destruct (m !! name c) as [l|];
    [destruct (negb (AlertLevel_eqb (h_level l) _))|];
    simpl; try reflexivity;
    [destruct (negb (AlertLevel_eqb _ info)); simpl;
       [| destruct (negb (AlertLevel_eqb (h_level l) info)); simpl]
    | destruct (negb (AlertLevel_eqb _ info)); simpl];
    rewrite ?String.eqb_refl; reflexivity.
Qed.

Lemma check_step_about_other (n : string) (c : Check) (m : gmap string HealthEntry) :
  name c <> n -> about n (fst (check_step c m)) = [].
Proof.
  intros Hne. apply String.eqb_neq in Hne.
  unfold check_step, about.
  destruct (m !! name c) as [l|];
    [destruct (negb (AlertLevel_eqb (h_level l) _))|];
    simpl; try reflexivity;
    [destruct (negb (AlertLevel_eqb _ info)); simpl;
       [| destruct (negb (AlertLevel_eqb (h_level l) info)); simpl]
    | destruct (negb (AlertLevel_eqb _ info)); simpl];
    rewrite ?Hne; reflexivity.
Qed.

Lemma check_step_lookup_other (n : string) (c : Check) (m : gmap string HealthEntry) :
  name c <> n -> snd (check_step c m) !! n = m !! n.
Proof.
  intros Hne. unfold check_step.
  destruct (match m !! name c with
            | Some l => negb (AlertLevel_eqb (h_level l) _)
            | None => true
            end); simpl; [|reflexivity].
  apply lookup_insert_ne, Hne.
Qed.

Lemma check_step_ext (c : Check) (m m' : gmap string HealthEntry) :
  m !! name c = m' !! name c -> fst (check_step c m) = fst (check_step c m').
Proof.
  intros H. unfold check_step. rewrite H.
  destruct (m' !! name c) as [l|]; [destruct (negb _)|]; reflexivity.
Qed.

(** Within a tick, the broadcasts about a component are those of its own
    check, run on the state the tick started from. *)
Lemma checkHealthAlerts_component (config : ChangeDetectorConfig)
    (st : SystemStatus) (m : gmap string HealthEntry) (c : Check) :
  In c (checks config st) ->
  about (name c) (fst (checkHealthAlerts config (Some st) m)) = fst (check_step c m).
Proof.
  unfold checkHealthAlerts, run_checks, checks. simpl.
  set (c1 := mkCheck "cpu" _ _). set (c2 := mkCheck "memory" _ _).
  set (c3 := mkCheck "disk" _ _).
  rewrite !about_app.
  intros [<- | [<- | [<- | []]]].
  - rewrite check_step_about_own.
    rewrite (check_step_about_other (name c1) c2) by discriminate.
    rewrite (check_step_about_other (name c1) c3) by discriminate.
    simpl. rewrite !app_nil_r. reflexivity.
  - rewrite (check_step_about_other (name c2) c1) by discriminate.
    rewrite check_step_about_own.
    rewrite (check_step_about_other (name c2) c3) by discriminate.
    simpl. rewrite !app_nil_r.
    apply check_step_ext, check_step_lookup_other. discriminate.
  - rewrite (check_step_about_other (name c3) c1) by discriminate.
    rewrite (check_step_about_other (name c3) c2) by discriminate.
    rewrite check_step_about_own. simpl.
    apply check_step_ext.
    rewrite !check_step_lookup_other by discriminate. reflexivity.
Qed.

Lemma AlertLevel_eqb_eq (a b : AlertLevel) : AlertLevel_eqb a b = true <-> a = b.
Proof. destruct a, b; simpl; split; congruence. Qed.

Lemma check_step_lookup_own (c : Check) (m : gmap string HealthEntry) :
  exists entry,
    snd (check_step c m) !! name c = Some entry /\
    h_level entry = getAlertLevel (value c) (threshold c).
Proof.
  unfold check_step.
  destruct (m !! name c) as [l|] eqn:E.
  - destruct (AlertLevel_eqb (h_level l) (getAlertLevel (value c) (threshold c))) eqn:El;
      simpl.
    + exists l. split; [exact E | apply AlertLevel_eqb_eq, El].
    + eexists. split; [apply lookup_insert_eq | reflexivity].
  - simpl. eexists. split; [apply lookup_insert_eq | reflexivity].
Qed.

Lemma run_checks_three (c1 c2 c3 : Check) (m : gmap string HealthEntry) :
  run_checks [c1; c2; c3] m =
  let r1 := check_step c1 m in
  let r2 := check_step c2 (snd r1) in
  let r3 := check_step c3 (snd r2) in
  (fst r1 ++ fst r2 ++ fst r3, snd r3).
Proof. unfold run_checks. simpl. rewrite <- app_assoc. reflexivity. Qed.

Lemma checkHealthAlerts_lookup (config : ChangeDetectorConfig) (st : SystemStatus)
    (m : gmap string HealthEntry) (c : Check) :
  In c (checks config st) ->
  exists entry,
    snd (checkHealthAlerts config (Some st) m) !! name c = Some entry /\
    h_level entry = getAlertLevel (value c) (threshold c).
Proof.
  unfold checkHealthAlerts, checks.
  set (c1 := mkCheck "cpu" _ _). set (c2 := mkCheck "memory" _ _).
  set (c3 := mkCheck "disk" _ _).
  rewrite run_checks_three. cbv zeta. cbn [snd].
  intros [<- | [<- | [<- | []]]].
  - rewrite !check_step_lookup_other by discriminate. apply check_step_lookup_own.
  - rewrite check_step_lookup_other by discriminate. apply check_step_lookup_own.
  - apply check_step_lookup_own.
Qed.

(** The monitored components, as the [checks] array lists them: the name
    of each, the field of the sample it reads and the threshold it is held
    against. *)
Inductive Component : Type := Cpu | Memory | Disk.

Definition component_name (k : Component) : string :=
  match k with Cpu => "cpu" | Memory => "memory" | Disk => "disk" end.

Definition usage (k : Component) (st : SystemStatus) : Q :=
  match k with
  | Cpu => cpuUsage st
  | Memory => memoryUsage st
  | Disk => diskUsage st
  end.

Definition limit (k : Component) (config : ChangeDetectorConfig) : Q :=
  match k with
  | Cpu => cpuThreshold config
  | Memory => memoryThreshold config
  | Disk => diskThreshold config
  end.

Definition component_check (config : ChangeDetectorConfig) (k : Component)
    (st : SystemStatus) : Check :=
  mkCheck (component_name k) (usage k st) (limit k config).

(** [lastHealthStatus] after a run of ticks. *)
Definition health_state (config : ChangeDetectorConfig) (samples : list SystemStatus)
    (lastHealthStatus : gmap string HealthEntry) : gmap string HealthEntry :=
  fold_left (fun m sample => snd (health_tick config sample m)) samples lastHealthStatus.

Lemma component_check_In (config : ChangeDetectorConfig) (k : Component)
    (st : SystemStatus) :
  In (component_check config k st) (checks config st).
Proof. destruct k; simpl; auto. Qed.

Lemma health_state_snoc (config : ChangeDetectorConfig) (samples : list SystemStatus)
    (st : SystemStatus) (m : gmap string HealthEntry) :
  health_state config (samples ++ [st]) m =
  snd (health_tick config st (health_state config samples m)).
Proof. unfold health_state. rewrite fold_left_app. reflexivity. Qed.

Lemma health_run_last (config : ChangeDetectorConfig) (samples : list SystemStatus)
    (st : SystemStatus) (m : gmap string HealthEntry) :
  List.last (health_run config (samples ++ [st]) m) [] =
  fst (health_tick config st (health_state config samples m)).
Proof.
  revert m. induction samples as [|x r IH]; intros m; [reflexivity|].
  change (health_run config ((x :: r) ++ [st]) m)
    with (fst (health_tick config x m)
            :: health_run config (r ++ [st]) (snd (health_tick config x m))).
  change (health_state config (x :: r) m)
    with (health_state config r (snd (health_tick config x m))).
  rewrite <- IH.
  destruct (health_run config (r ++ [st]) (snd (health_tick config x m))) eqn:E;
    [|reflexivity].
  destruct r; discriminate.
Qed.

(** After a run of ticks the map holds, for every component, the level of
    the last sample; before the first tick it holds nothing. *)
Lemma health_state_lookup (config : ChangeDetectorConfig) (k : Component)
    (samples : list SystemStatus) (d : SystemStatus) :
  match samples with
  | [] => health_state config samples ∅ !! component_name k = None
  | _ =>
      exists entry,
        health_state config samples ∅ !! component_name k = Some entry /\
        h_level entry = getAlertLevel (usage k (List.last samples d)) (limit k config)
  end.
Proof.
  destruct samples as [|x r]; [apply lookup_empty|].
  assert (Hne : x :: r <> []) by discriminate.
  destruct (exists_last Hne) as (front & st & ->).
  rewrite health_state_snoc, last_last.
  apply (checkHealthAlerts_lookup config st _ (component_check config k st)),
    component_check_In.
Qed.

(** C7.  For a monitored component with threshold [t] and every run of
    samples through a detector that starts with an empty [lastHealthStatus]:
    the level of a value is [critical] above [t + 15], [warning] above [t],
    [info] otherwise.  With [previous] the level of the sample before the
    current one ([info] before the first sample), the broadcasts that the
    tick of the current sample issues about the component are: one
    [health_alert], [high] for [critical] and [normal] for [warning], when
    the level leaves [info]; one [health_recovery] at [normal] when the
    level returns to [info]; nothing when the level is the one before.  A
    move between [warning] and [critical] issues a [health_alert] too. *)
Theorem health_state_machine (config : ChangeDetectorConfig) (k : Component)
    (samples : list SystemStatus) (current : SystemStatus) :
  let level := getAlertLevel (usage k current) (limit k config) in
  let previous :=
    match samples with
    | [] => info
    | _ => getAlertLevel (usage k (List.last samples current)) (limit k config)
    end in
  let events :=
    about (component_name k)
      (List.last (health_run config (samples ++ [current]) ∅) []) in
  let alert :=
    mkBroadcast "health" "health_alert"
      (HealthAlertData level (component_name k) (limit k config) (usage k current))
      (match level with critical => high | _ => normal end) in
  (forall v t : Q,
     ((t + 15 < v)%Q -> getAlertLevel v t = critical) /\
     ((t < v)%Q -> (v <= t + 15)%Q -> getAlertLevel v t = warning) /\
     ((v <= t)%Q -> getAlertLevel v t = info)) /\
  (previous = info -> level <> info -> events = [alert]) /\
  (previous <> info -> level = info ->
     events =
       [mkBroadcast "health" "health_recovery"
          (HealthRecoveryData (component_name k)) normal]) /\
  (previous = level -> events = []) /\
  (previous <> info -> level <> info -> previous <> level -> events = [alert]).
Proof.
  intros level previous events alert.
  split; [intros v t; apply getAlertLevel_spec|].
  assert (Hev : events =
                fst (check_step (component_check config k current)
                       (health_state config samples ∅))).
  { subst events. rewrite health_run_last. unfold health_tick.
    apply (checkHealthAlerts_component config current _
             (component_check config k current)), component_check_In. }
  pose proof (health_state_lookup config k samples current) as Hprev.
  rewrite Hev. unfold check_step. cbn [component_check name value threshold].
  fold level. subst alert. unfold health_alert, health_recovery.
  cbn [component_check name value threshold].
  destruct samples as [|x r].
  - rewrite Hprev. subst previous.
    destruct level; repeat split; intros; try congruence; reflexivity.
  - destruct Hprev as (entry & -> & Hl). fold previous in Hl. rewrite Hl.
    destruct previous, level; repeat split; intros; try congruence; reflexivity.
Qed.

(** The health scenario: CPU threshold 80, samples 70, 85, 96, 85, 70. *)
Definition cpu_sample (cpu : Q) : SystemStatus :=
  mkStatus true cpu 50 65 0 10 1000 "2.0.0".

Example scenario_health :
  health_run defaultConfig
    [cpu_sample 70; cpu_sample 85; cpu_sample 96; cpu_sample 85; cpu_sample 70] ∅ =
  [ [];
    [mkBroadcast "health" "health_alert" (HealthAlertData warning "cpu" 80 85) normal];
    [mkBroadcast "health" "health_alert" (HealthAlertData critical "cpu" 80 96) high];
    [mkBroadcast "health" "health_alert" (HealthAlertData warning "cpu" 80 85) normal];
    [mkBroadcast "health" "health_recovery" (HealthRecoveryData "cpu") normal] ].
Proof. vm_compute. reflexivity. Qed.

(** CPU at 70 and then at 85 with the threshold at 80: the second tick
    issues one [warning] alert at [normal] priority. *)
Lemma health_state_machine_witness :
  about "cpu"
    (List.last (health_run defaultConfig ([cpu_sample 70] ++ [cpu_sample 85]) ∅) []) =
  [mkBroadcast "health" "health_alert" (HealthAlertData warning "cpu" 80 85) normal].
Proof.
  pose proof (health_state_machine defaultConfig Cpu [cpu_sample 70] (cpu_sample 85))
    as H.
  cbv zeta in H. destruct H as (_ & Haway & _).
  apply Haway; [reflexivity | discriminate].
Defined.

End Detector.

(* ===================================================================== *)
(** ** The [WebSocketClient] of the frontend                              *)
(* ===================================================================== *)

Module Client.

(** [ConnectionState]. *)
Inductive ConnectionState : Type :=
  connecting | connected | disconnected | reconnecting.

Definition ConnectionState_eqb (a b : ConnectionState) : bool :=
  match a, b with
  | connecting, connecting | connected, connected
  | disconnected, disconnected | reconnecting, reconnecting => true
  | _, _ => false
  end.

(** [WebSocket.readyState]. *)
Inductive ReadyState : Type := CONNECTING | OPEN | CLOSING | CLOSED.

Record ClientMessage : Type := mkClientMessage {
  id : string;
  type : string;
  timestamp : Z;
  action : string;
  payload : option Json
}.

(** The numeric options; the callbacks show up as effects. *)
Record Options : Type := mkOptions {
  reconnectInterval : Q;
  maxReconnectAttempts : nat;
  heartbeatInterval : Q;
  heartbeatTimeout : Z
}.

(** [DEFAULT_OPTIONS]. *)
Definition DEFAULT_OPTIONS : Options := mkOptions 3000 5 30000 60000.

(** The private fields of the class.  [ws] holds the [readyState] of the
    current socket, [reconnectTimer] the delay of the pending [setTimeout],
    [heartbeatTimer] the period of the running [setInterval];
    [subscriptions] is the [Set] in insertion order. *)
Record Client : Type := mkClient {
  ws : option ReadyState;
  state : ConnectionState;
  reconnectAttempts : nat;
  reconnectTimer : option Q;
  heartbeatTimer : option Q;
  lastPongTime : Z;
  messageQueue : list ClientMessage;
  subscriptions : list string;
  connectionId : option Json
}.

(** What a method does to the outside: socket calls, callbacks, timers. *)
Inductive Effect : Type :=
| WsSend (message : ClientMessage)
| WsClose
| OnOpen
| OnClose
| OnMessage (message : Json)
| OnError (error : string)
| OnReconnecting (attempt : nat)
| SetTimeout (delay : Q).

(** A freshly constructed client, before [connect]. *)
Definition init (now : Z) : Client :=
  mkClient None disconnected 0 None None now [] [] None.

Definition set_ws (v : option ReadyState) (c : Client) : Client :=
  mkClient v (state c) (reconnectAttempts c) (reconnectTimer c) (heartbeatTimer c)
    (lastPongTime c) (messageQueue c) (subscriptions c) (connectionId c).
Definition set_state (v : ConnectionState) (c : Client) : Client :=
  mkClient (ws c) v (reconnectAttempts c) (reconnectTimer c) (heartbeatTimer c)
    (lastPongTime c) (messageQueue c) (subscriptions c) (connectionId c).
Definition set_reconnectAttempts (v : nat) (c : Client) : Client :=
  mkClient (ws c) (state c) v (reconnectTimer c) (heartbeatTimer c)
    (lastPongTime c) (messageQueue c) (subscriptions c) (connectionId c).
Definition set_reconnectTimer (v : option Q) (c : Client) : Client :=
  mkClient (ws c) (state c) (reconnectAttempts c) v (heartbeatTimer c)
    (lastPongTime c) (messageQueue c) (subscriptions c) (connectionId c).
Definition set_heartbeatTimer (v : option Q) (c : Client) : Client :=
  mkClient (ws c) (state c) (reconnectAttempts c) (reconnectTimer c) v
    (lastPongTime c) (messageQueue c) (subscriptions c) (connectionId c).
Definition set_lastPongTime (v : Z) (c : Client) : Client :=
  mkClient (ws c) (state c) (reconnectAttempts c) (reconnectTimer c) (heartbeatTimer c)
    v (messageQueue c) (subscriptions c) (connectionId c).
Definition set_messageQueue (v : list ClientMessage) (c : Client) : Client :=
  mkClient (ws c) (state c) (reconnectAttempts c) (reconnectTimer c) (heartbeatTimer c)
    (lastPongTime c) v (subscriptions c) (connectionId c).
Definition set_subscriptions (v : list string) (c : Client) : Client :=
  mkClient (ws c) (state c) (reconnectAttempts c) (reconnectTimer c) (heartbeatTimer c)
    (lastPongTime c) (messageQueue c) v (connectionId c).
Definition set_connectionId (v : option Json) (c : Client) : Client :=
  mkClient (ws c) (state c) (reconnectAttempts c) (reconnectTimer c) (heartbeatTimer c)
    (lastPongTime c) (messageQueue c) (subscriptions c) v.

Definition is_open (c : Client) : bool :=
  match ws c with Some OPEN => true | _ => false end.

(** [send(message)]: written when connected on an open socket, queued
    otherwise.  A socket in state [OPEN] accepts the write. *)
Definition send (message : ClientMessage) (c : Client)
    : bool * Client * list Effect :=
  if ConnectionState_eqb (state c) connected && is_open c
  then (true, c, [WsSend message])
  else (false, set_messageQueue (messageQueue c ++ [message]) c, []).

(** [Set.prototype.add] and [Set.prototype.delete] on the subscription set. *)
Definition set_add (x : string) (s : list string) : list string :=
  if existsb (String.eqb x) s then s else s ++ [x].
Definition set_delete (x : string) (s : list string) : list string :=
  List.filter (fun y => negb (String.eqb x y)) s.

Definition types_payload (types : list string) : option Json :=
  Some (JObj [("types", JArr (map JStr types))]).

(** [subscribe(types)] and [unsubscribe(types)]; [uuid] and [now] are what
    [generateUUID()] and [Date.now()] return. *)
Definition subscribe (uuid : string) (now : Z) (types : list string) (c : Client)
    : Client * list Effect :=
  let c := set_subscriptions (fold_left (fun s t => set_add t s) types (subscriptions c)) c in
  if ConnectionState_eqb (state c) connected then
    let '(_, c', e) :=
      send (mkClientMessage uuid "config" now "subscribe" (types_payload types)) c in
    (c', e)
  else (c, []).

Definition unsubscribe (uuid : string) (now : Z) (types : list string) (c : Client)
    : Client * list Effect :=
  let c :=
    set_subscriptions (fold_left (fun s t => set_delete t s) types (subscriptions c)) c in
  if ConnectionState_eqb (state c) connected then
    let '(_, c', e) :=
      send (mkClientMessage uuid "config" now "unsubscribe" (types_payload types)) c in
    (c', e)
  else (c, []).

(** [ping()]. *)
Definition ping (uuid : string) (now : Z) (c : Client) : Client * list Effect :=
  let '(_, c', e) := send (mkClientMessage uuid "system" now "ping" None) c in
  (c', e).

(** [cleanup()]: both timers are cleared. *)
Definition cleanup (c : Client) : Client :=
  set_heartbeatTimer None (set_reconnectTimer None c).

(** [Math.pow(1.5, n)]. *)
Definition pow_1_5 (n : nat) : Q := Qpower (3 # 2) (Z.of_nat n).

(** The delay computed by [attemptReconnect] for attempt number [attempt]. *)
Definition reconnect_delay (opts : Options) (attempt : nat) : Q :=
  Qmin (reconnectInterval opts * pow_1_5 (attempt - 1)) 30000.

(** [attemptReconnect()]. *)
Definition attemptReconnect (opts : Options) (c : Client) : Client * list Effect :=
  if maxReconnectAttempts opts <=? reconnectAttempts c then
    (set_state disconnected c, [OnError "Max reconnection attempts reached"])
  else
    let c := set_reconnectAttempts (S (reconnectAttempts c)) (set_state reconnecting c) in
    let delay := reconnect_delay opts (reconnectAttempts c) in
    (set_reconnectTimer (Some delay) c,
     [OnReconnecting (reconnectAttempts c); SetTimeout delay]).

(** [connect()]; [throws] tells whether [new WebSocket(url)] throws. *)
Definition connect (opts : Options) (throws : bool) (c : Client)
    : Client * list Effect :=
  if ConnectionState_eqb (state c) connected
     || ConnectionState_eqb (state c) connecting
  then (c, [])
  else
    let c := set_state connecting c in
    if throws then
      let '(c', e) := attemptReconnect opts c in
      (c', OnError "connect" :: e)
    else (set_ws (Some CONNECTING) c, []).

(** [disconnect()]. *)
Definition disconnect (c : Client) : Client * list Effect :=
  let c := cleanup c in
  let e := match ws c with Some _ => [WsClose] | None => [] end in
  (set_connectionId None (set_state disconnected (set_ws None c)), e).

(** The loop of [flushMessageQueue]: [shift] and [send] until the queue is
    empty.  [None]: the loop is still running when the fuel is spent. *)
Fixpoint flush_loop (fuel : nat) (c : Client) : option (Client * list Effect) :=
  match messageQueue c with
  | [] => Some (c, [])
  | message :: rest =>
      match fuel with
      | 0 => None
      | S fuel' =>
          let '(_, c1, e1) := send message (set_messageQueue rest c) in
          match flush_loop fuel' c1 with
          | Some (c2, e2) => Some (c2, e1 ++ e2)
          | None => None
          end
      end
  end.

(** [flushMessageQueue()]. *)
Definition flushMessageQueue (fuel : nat) (uuid : string) (now : Z) (c : Client)
    : option (Client * list Effect) :=
  if length (messageQueue c) =? 0 then Some (c, [])
  else
    match flush_loop fuel c with
    | None => None
    | Some (c1, e1) =>
        if 0 <? length (subscriptions c1) then
          let '(_, c2, e2) :=
            send (mkClientMessage uuid "config" now "subscribe"
                    (types_payload (subscriptions c1))) c1 in
          Some (c2, e1 ++ e2)
        else Some (c1, e1)
    end.

(** [handleOpen()], the handler of the socket's [open] event. *)
Definition handleOpen (opts : Options) (fuel : nat) (uuid : string) (now : Z)
    (c : Client) : option (Client * list Effect) :=
  let c := set_lastPongTime now (set_reconnectAttempts 0 (set_state connected c)) in
  let c := set_heartbeatTimer (Some (heartbeatInterval opts)) c in
  match flushMessageQueue fuel uuid now c with
  | Some (c', e) => Some (c', e ++ [OnOpen])
  | None => None
  end.

(** [handleClose()], the handler of the socket's [close] event. *)
Definition handleClose (opts : Options) (c : Client) : Client * list Effect :=
  let c := set_connectionId None (cleanup c) in
  if negb (ConnectionState_eqb (state c) disconnected) then
    let '(c', e) := attemptReconnect opts c in
    (c', OnClose :: e)
  else (c, [OnClose]).

(** [handleError()]. *)
Definition handleError (c : Client) : Client * list Effect :=
  (c, [OnError "WebSocket connection error"]).

(** One tick of the interval of [startHeartbeat]. *)
Definition heartbeat_tick (opts : Options) (uuid : string) (now : Z) (c : Client)
    : Client * list Effect :=
  if (heartbeatTimeout opts <? now - lastPongTime c)%Z then
    (c, match ws c with Some _ => [WsClose] | None => [] end)
  else ping uuid now c.

(** *** Incoming frames *)

(** The outcome of a property access [v.k] or [v[k]]. *)
Inductive Access : Type :=
| Throws                (* a [TypeError]: [v] is [null] or [undefined] *)
| Undefined             (* [v] has no such property *)
| Found (x : Json).

Fixpoint lookup_field (k : string) (fields : list (string * Json)) : option Json :=
  match fields with
  | [] => None
  | (k', x) :: rest => if String.eqb k' k then Some x else lookup_field k rest
  end.

(** [v.k] for one of the keys [event], [data], [connectionId] on a parsed
    value: [null] throws, an object is looked up, a boolean, number, string
    or array has no such property. *)
Definition get_prop (v : Json) (k : string) : Access :=
  match v with
  | JNull => Throws
  | JObj fields =>
      match lookup_field k fields with
      | Some x => Found x
      | None => Undefined
      end
  | _ => Undefined
  end.

(** [x === s] for a string literal [s]. *)
Definition is_string (x : Access) (s : string) : bool :=
  match x with
  | Found (JStr s') => String.eqb s' s
  | _ => false
  end.

(** Truthiness of a parsed value. *)
Definition truthy (x : Json) : bool :=
  match x with
  | JNull => false
  | JBool b => b
  | JNum q => negb (Qeq_bool q 0)
  | JStr s => negb (String.eqb s "")
  | JArr _ | JObj _ => true
  end.

Definition parse_failure : list Effect := [OnError "Failed to parse message"].

(** [this.options.onMessage(message)], the last statement of the [try]:
    when the callback throws, the [catch] reports that too. *)
Definition forward (throws : bool) (message : Json) : list Effect :=
  OnMessage message :: (if throws then parse_failure else []).

(** [handleMessage(event)]; [parsed] is what [JSON.parse(event.data)]
    returns, [None] when it throws; [throws] tells whether the [onMessage]
    callback throws when it is called.  Whatever is thrown inside the
    [try], by the parse, by a property access or by the callback, is caught
    and reported through [onError] as a parse failure. *)
Definition handleMessage (parsed : option Json) (now : Z) (throws : bool)
    (c : Client) : Client * list Effect :=
  match parsed with
  | None => (c, parse_failure)
  | Some message =>
      match get_prop message "event" with
      | Throws => (c, parse_failure)
      | event =>
          if is_string event "pong" then (set_lastPongTime now c, [])
          else if is_string event "connected" then
            match get_prop message "data" with
            | Found data =>
                match get_prop data "connectionId" with
                | Throws => (c, parse_failure)
                | Found connectionId =>
                    ((if truthy connectionId
                      then set_connectionId (Some connectionId) c else c),
                     forward throws message)
                | Undefined => (c, forward throws message)
                end
            | _ => (c, parse_failure)
            end
          else (c, forward throws message)
      end
  end.

(** *** Reconnection: what [handleOpen] sends *)

(** The [open] and [close] events: the browser moves the [readyState] of
    the socket and then calls the handler.  After [disconnect()] the client
    holds no socket any more ([this.ws] is [null]), and the [close] event
    of the socket it let go leaves [this.ws] as it is. *)
Definition on_open (opts : Options) (fuel : nat) (uuid : string) (now : Z)
    (c : Client) : option (Client * list Effect) :=
  handleOpen opts fuel uuid now (set_ws (Some OPEN) c).

Definition on_close (opts : Options) (c : Client) : Client * list Effect :=
  handleClose opts (set_ws (option_map (fun _ => CLOSED) (ws c)) c).

(** The frames written to the socket among the effects. *)
Definition sent (effects : list Effect) : list ClientMessage :=
  flat_map (fun e => match e with WsSend m => [m] | _ => [] end) effects.

Lemma flush_loop_open (fuel : nat) (c : Client) :
  state c = connected -> is_open c = true ->
  length (messageQueue c) <= fuel ->
  flush_loop fuel c = Some (set_messageQueue [] c, map WsSend (messageQueue c)).
Proof.
  revert c. induction fuel as [|fuel IH]; intros c Hs Ho Hlen.
  - destruct c as [w st ra rt ht lp q subs cid]. simpl in *.
    destruct q; [reflexivity | simpl in Hlen; lia].
  - destruct c as [w st ra rt ht lp q subs cid]. simpl in *. subst st.
    destruct q as [|m rest]; [reflexivity|].
    unfold send, is_open in *. simpl in *. rewrite Ho.
    match goal with
    | |- context [flush_loop fuel ?x] => rewrite (IH x eq_refl Ho) by (simpl; lia)
    end.
    reflexivity.
Qed.

(** With frames waiting, [handleOpen] writes them in queue order and then
    one [subscribe] frame with the whole subscription set. *)
Lemma handleOpen_flushes_then_resubscribes (opts : Options) (fuel : nat)
    (uuid : string) (now : Z) (c : Client) :
  messageQueue c <> [] -> subscriptions c <> [] ->
  length (messageQueue c) <= fuel ->
  exists c',
    on_open opts fuel uuid now c = Some (c', map WsSend (messageQueue c) ++
      [WsSend (mkClientMessage uuid "config" now "subscribe"
                 (types_payload (subscriptions c)));
       OnOpen]) /\
    state c' = connected /\ reconnectAttempts c' = 0 /\
    heartbeatTimer c' = Some (heartbeatInterval opts) /\ messageQueue c' = [].
Proof.
  intros Hq Hsubs Hfuel.
  destruct c as [w st ra rt ht lp q subs cid]. simpl in *.
  unfold on_open, handleOpen, flushMessageQueue. simpl.
  destruct q as [|m rest]; [contradiction|].
  destruct subs as [|t ts]; [contradiction|].
  change (length (m :: rest) =? 0) with false. cbv iota.
  rewrite flush_loop_open by (simpl in *; auto).
  simpl. eexists. split.
  { rewrite <- app_assoc. reflexivity. }
  repeat split; reflexivity.
Qed.

(** C2, at the failing input.  With an empty offline queue [handleOpen]
    writes nothing to the socket, whatever the subscription set holds: the
    early return of [flushMessageQueue] skips the resubscription. *)
Theorem handleOpen_empty_queue_no_resubscribe (opts : Options) (fuel : nat)
    (uuid : string) (now : Z) (c : Client) :
  exists c',
    on_open opts fuel uuid now (set_messageQueue [] c) = Some (c', [OnOpen]) /\
    state c' = connected /\ reconnectAttempts c' = 0 /\
    subscriptions c' = subscriptions c.
Proof.
  eexists. split; [reflexivity|]. repeat split; reflexivity.
Qed.

(** The reconnect scenario: connect, subscribe to [status] and [stats],
    lose the transport, reconnect. *)
Definition after (r : Client * list Effect) : Client := fst r.

Definition subscribed_then_dropped : Client :=
  let c0 := after (connect DEFAULT_OPTIONS false (init 0)) in
  let c1 := match on_open DEFAULT_OPTIONS 10 "u0" 1 c0 with
            | Some (c, _) => c | None => c0 end in
  let c2 := after (subscribe "u1" 2 ["status"; "stats"] c1) in
  let c3 := after (on_close DEFAULT_OPTIONS c2) in
  after (connect DEFAULT_OPTIONS false c3).

Example scenario_reconnect_sends_no_subscribe :
  subscriptions subscribed_then_dropped = ["status"; "stats"] /\
  state subscribed_then_dropped = connecting /\
  messageQueue subscribed_then_dropped = [] /\
  option_map (fun r => sent (snd r))
    (on_open DEFAULT_OPTIONS 10 "u2" 3 subscribed_then_dropped) = Some [].
Proof. repeat split; reflexivity. Qed.

(** *** Reconnection: back-off and ceiling *)

(** The states a client reaches from its constructor, through the public
    methods, the socket events and the timers. *)
Inductive reachable (opts : Options) : Client -> Prop :=
| reach_init (now : Z) : reachable opts (init now)
| reach_connect (throws : bool) (c : Client) :
    reachable opts c -> reachable opts (fst (connect opts throws c))
| reach_disconnect (c : Client) :
    reachable opts c -> reachable opts (fst (disconnect c))
| reach_open (fuel : nat) (uuid : string) (now : Z) (c c' : Client)
    (e : list Effect) :
    reachable opts c -> on_open opts fuel uuid now c = Some (c', e) ->
    reachable opts c'
| reach_close (c : Client) :
    reachable opts c -> reachable opts (fst (on_close opts c))
| reach_error (c : Client) :
    reachable opts c -> reachable opts (fst (handleError c))
| reach_message (parsed : option Json) (now : Z) (throws : bool) (c : Client) :
    reachable opts c -> reachable opts (fst (handleMessage parsed now throws c))
| reach_heartbeat (uuid : string) (now : Z) (c : Client) :
    reachable opts c -> reachable opts (fst (heartbeat_tick opts uuid now c))
| reach_subscribe (uuid : string) (now : Z) (types : list string) (c : Client) :
    reachable opts c -> reachable opts (fst (subscribe uuid now types c))
| reach_unsubscribe (uuid : string) (now : Z) (types : list string) (c : Client) :
    reachable opts c -> reachable opts (fst (unsubscribe uuid now types c))
| reach_send (message : ClientMessage) (c : Client) :
    reachable opts c -> reachable opts (snd (fst (send message c))).

Lemma send_attempts (message : ClientMessage) (c : Client) :
  reconnectAttempts (snd (fst (send message c))) = reconnectAttempts c.
Proof. unfold send. destruct (_ && _); reflexivity. Qed.

Lemma flush_loop_attempts (fuel : nat) (c c' : Client) (e : list Effect) :
  flush_loop fuel c = Some (c', e) -> reconnectAttempts c' = reconnectAttempts c.
Proof.
  revert c c' e. induction fuel as [|fuel IH]; intros c c' e; simpl.
  - destruct (messageQueue c); [|discriminate]. intros H. injection H as <- _. reflexivity.
  - destruct (messageQueue c) as [|m rest].
    + intros H. injection H as <- _. reflexivity.
    + pose proof (send_attempts m (set_messageQueue rest c)) as Hs.
      destruct (send m (set_messageQueue rest c)) as [[b c1] e1]. simpl in Hs.
      destruct (flush_loop fuel c1) as [[c2 e2]|] eqn:Hl; [|discriminate].
      intros H. injection H as <- _. rewrite (IH _ _ _ Hl). exact Hs.
Qed.

Lemma attemptReconnect_attempts (opts : Options) (c : Client) :
  reconnectAttempts c <= maxReconnectAttempts opts ->
  reconnectAttempts (fst (attemptReconnect opts c)) <= maxReconnectAttempts opts.
Proof.
  intros H. unfold attemptReconnect.
  destruct (maxReconnectAttempts opts <=? reconnectAttempts c) eqn:E; simpl; [exact H|].
  apply Nat.leb_gt in E. lia.
Qed.

(** A step through [send]: the counter is the one before the call. *)
Ltac case_send :=
  match goal with
  | |- context [send ?m ?x] =>
      let Hs := fresh "Hs" in
      pose proof (send_attempts m x) as Hs;
      destruct (send m x) as [[? ?] ?]; simpl in Hs
  end.

Ltac case_if :=
  match goal with
  | |- context [if ?b then _ else _] => destruct b
  end.

Lemma reachable_attempts (opts : Options) (c : Client) :
  reachable opts c -> reconnectAttempts c <= maxReconnectAttempts opts.
Proof.
  induction 1 as [now | throws c _ IH | c _ IH | fuel uuid now c c' e _ IH Hopen
                 | c _ IH | c _ IH | parsed now throws c _ IH | uuid now c _ IH
                 | uuid now types c _ IH | uuid now types c _ IH | message c _ IH].
  - simpl. lia.
  - unfold connect.
    destruct (_ || _); [exact IH|]. destruct throws; [|exact IH].
    pose proof (attemptReconnect_attempts opts (set_state connecting c) IH) as Ha.
    destruct (attemptReconnect opts (set_state connecting c)). exact Ha.
  - exact IH.
  - unfold on_open, handleOpen, flushMessageQueue in Hopen.
    match type of Hopen with
    | context [if ?b then _ else _] => destruct b
    end.
    + injection Hopen as <- _. simpl. lia.
    + match type of Hopen with
      | context [flush_loop fuel ?x] =>
          destruct (flush_loop fuel x) as [[c1 e1]|] eqn:Hl; [|discriminate]
      end.
      apply flush_loop_attempts in Hl. simpl in Hl.
      destruct (0 <? length (subscriptions c1)).
      * match type of Hopen with
        | context [send ?m c1] =>
            pose proof (send_attempts m c1) as Hs; destruct (send m c1) as [[b c2] e2]
        end.
        simpl in Hs. injection Hopen as <- _. lia.
      * injection Hopen as <- _. lia.
  - unfold on_close, handleClose. case_if; [|exact IH].
    match goal with
    | |- context [attemptReconnect opts ?x] =>
        pose proof (attemptReconnect_attempts opts x IH) as Ha;
        destruct (attemptReconnect opts x)
    end.
    exact Ha.
  - exact IH.
  - unfold handleMessage.
    repeat match goal with
           | |- context [match ?x with _ => _ end] => destruct x
           end; exact IH.
  - unfold heartbeat_tick, ping.
    destruct (_ <? _)%Z; [exact IH|]. case_send. simpl. lia.
  - unfold subscribe. case_if; [|exact IH]. case_send. simpl in *. lia.
  - unfold unsubscribe. case_if; [|exact IH]. case_send. simpl in *. lia.
  - rewrite send_attempts. exact IH.
Qed.

Lemma reconnect_delay_le (opts : Options) (n : nat) :
  (reconnect_delay opts n <= 30000)%Q.
Proof. unfold reconnect_delay. apply Q.le_min_r. Qed.

(** C8.  While attempts remain, [attemptReconnect] starts attempt [n] (one
    more than the counter) and arms the timer with
    [min (reconnectInterval * 1.5^(n-1)) 30000], and so does the [close]
    event of a client that did not disconnect itself; the delay never
    exceeds 30000; the counter of a reachable client never exceeds
    [maxReconnectAttempts]; and at the ceiling the client goes to
    [disconnected], arms no timer and calls the error callback. *)
Theorem reconnect_backoff_and_ceiling (opts : Options) :
  (forall c : Client,
     reconnectAttempts c < maxReconnectAttempts opts ->
     let n := S (reconnectAttempts c) in
     let delay := Qmin (reconnectInterval opts * (3 # 2) ^ Z.of_nat (n - 1)) 30000 in
     (exists c',
        attemptReconnect opts c = (c', [OnReconnecting n; SetTimeout delay]) /\
        state c' = reconnecting /\ reconnectAttempts c' = n /\
        reconnectTimer c' = Some delay) /\
     (state c <> disconnected ->
      exists c',
        on_close opts c = (c', [OnClose; OnReconnecting n; SetTimeout delay]) /\
        state c' = reconnecting /\ reconnectAttempts c' = n /\
        reconnectTimer c' = Some delay) /\
     (delay <= 30000)%Q) /\
  (forall c : Client,
     reachable opts c -> reconnectAttempts c <= maxReconnectAttempts opts) /\
  (forall c : Client,
     maxReconnectAttempts opts <= reconnectAttempts c ->
     attemptReconnect opts c =
       (set_state disconnected c, [OnError "Max reconnection attempts reached"]) /\
     state (fst (attemptReconnect opts c)) = disconnected /\
     reconnectAttempts (fst (attemptReconnect opts c)) = reconnectAttempts c /\
     reconnectTimer (fst (attemptReconnect opts c)) = reconnectTimer c /\
     (state c <> disconnected ->
      exists c',
        on_close opts c = (c', [OnClose; OnError "Max reconnection attempts reached"]) /\
        state c' = disconnected /\ reconnectTimer c' = None /\
        reconnectAttempts c' = reconnectAttempts c)).
Proof.
  split; [|split].
  - intros c Hlt n delay.
    assert (E : (maxReconnectAttempts opts <=? reconnectAttempts c) = false)
      by (apply Nat.leb_gt; exact Hlt).
    split; [|split].
    + unfold attemptReconnect. rewrite E.
      eexists. split; [reflexivity|]. repeat split; reflexivity.
    + intros Hstate. unfold on_close, handleClose, attemptReconnect. simpl.
      rewrite E. destruct (state c); try contradiction; simpl;
        (eexists; split; [reflexivity | repeat split; reflexivity]).
    + apply Q.le_min_r.
  - apply reachable_attempts.
  - intros c Hge.
    assert (E : (maxReconnectAttempts opts <=? reconnectAttempts c) = true)
      by (apply Nat.leb_le; exact Hge).
    unfold attemptReconnect at 1 2 3 4. rewrite E.
    split; [reflexivity|]. split; [reflexivity|]. split; [reflexivity|].
    split; [reflexivity|].
    intros Hstate. unfold on_close, handleClose, attemptReconnect. simpl.
    rewrite E. destruct (state c); try contradiction; simpl;
      (eexists; split; [reflexivity | repeat split; reflexivity]).
Qed.

(** The default schedule: 3000, 4500, 6750, 10125 and 15187.5 ms. *)
Example default_delays :
  Forall2 Qeq (map (reconnect_delay DEFAULT_OPTIONS) [1; 2; 3; 4; 5])
              [3000; 4500; 6750; 10125; 30375 # 2]%Q.
Proof. repeat constructor. Qed.

(** With ten attempts allowed the ceiling of 30000 ms is reached at the
    seventh. *)
Example delay_is_capped :
  Forall2 Qeq
    (map (reconnect_delay (mkOptions 3000 10 30000 60000)) [6; 7; 8])
    [91125 # 4; 30000; 30000]%Q.
Proof. repeat constructor. Qed.

(** A client whose first two connection attempts failed: the third attempt
    waits 3000 * 1.5^2 = 6750 ms. *)
Definition twice_failed : Client :=
  fst (connect DEFAULT_OPTIONS true (fst (connect DEFAULT_OPTIONS true (init 0)))).

Lemma reconnect_backoff_and_ceiling_witness :
  reconnectAttempts twice_failed < maxReconnectAttempts DEFAULT_OPTIONS /\
  (exists c',
     attemptReconnect DEFAULT_OPTIONS twice_failed =
       (c', [OnReconnecting 3; SetTimeout (Qmin (3000 * (3 # 2) ^ 2) 30000)])) /\
  (Qmin (3000 * (3 # 2) ^ 2) 30000 == 6750)%Q.
Proof.
  assert (H : reconnectAttempts twice_failed < maxReconnectAttempts DEFAULT_OPTIONS)
    by (simpl; lia).
  split; [exact H|]. split; [|reflexivity].
  destruct (proj1 (proj1 (reconnect_backoff_and_ceiling DEFAULT_OPTIONS) twice_failed H))
    as (c' & Hc & _).
  exists c'. exact Hc.
Defined.

(** *** Incoming frames: what is forwarded *)

(** What a [connected] frame with [data] does to the client: [connectionId]
    is taken from [data.connectionId] when that is truthy. *)
Definition record_connectionId (data : Json) (c : Client) : Client :=
  match get_prop data "connectionId" with
  | Found connectionId =>
      if truthy connectionId then set_connectionId (Some connectionId) c else c
  | _ => c
  end.

(** The frames that [handleMessage] treats as the claim has it.  For a frame
    that parses to anything but [null]: a [pong] only updates
    [lastPongTime] and is not forwarded; a frame that is neither [pong] nor
    [connected] is forwarded to [onMessage] and changes nothing; a
    [connected] frame whose [data] is present and not [null] first records
    the connection id and is then forwarded. *)
Lemma handleMessage_dispatch (message : Json) (now : Z) (throws : bool) (c : Client) :
  message <> JNull ->
  let event := get_prop message "event" in
  (is_string event "pong" = true ->
     handleMessage (Some message) now throws c = (set_lastPongTime now c, [])) /\
  (is_string event "pong" = false -> is_string event "connected" = false ->
     handleMessage (Some message) now throws c = (c, forward throws message)) /\
  (is_string event "pong" = false -> is_string event "connected" = true ->
     forall data, get_prop message "data" = Found data -> data <> JNull ->
       handleMessage (Some message) now throws c =
         (record_connectionId data c, forward throws message)).
Proof.
  intros Hnull event.
  assert (Hev : event <> Throws).
  { subst event. destruct message; simpl; try discriminate; [contradiction|].
    destruct (lookup_field "event" fields); discriminate. }
  assert (Hrec : forall data, data <> JNull ->
            match get_prop data "connectionId" with
            | Throws => (c, parse_failure)
            | Undefined => (c, forward throws message)
            | Found connectionId =>
                ((if truthy connectionId
                  then set_connectionId (Some connectionId) c else c),
                 forward throws message)
            end = (record_connectionId data c, forward throws message)).
  { intros data Hdn. unfold record_connectionId.
    destruct (get_prop data "connectionId") eqn:Hc; try reflexivity.
    destruct data; simpl in Hc; try discriminate; try contradiction.
    destruct (lookup_field "connectionId" fields); discriminate. }
  unfold handleMessage. subst event.
  destruct (get_prop message "event") as [| |x]; [contradiction| |].
  - simpl. repeat split; intros; try discriminate; reflexivity.
  - split; [|split].
    + intros Hpong. rewrite Hpong. reflexivity.
    + intros Hpong Hconn. rewrite Hpong, Hconn. reflexivity.
    + intros Hpong Hconn data Hdata Hdn. rewrite Hpong, Hconn, Hdata.
      apply Hrec, Hdn.
Qed.

Example connected_frame_recorded :
  let frame :=
    JObj [("event", JStr "connected");
          ("data", JObj [("connectionId", JStr "abc")])] in
  handleMessage (Some frame) 5 false (init 0) =
    (set_connectionId (Some (JStr "abc")) (init 0), [OnMessage frame]).
Proof. reflexivity. Qed.

(** C10, at the failing inputs.  A frame that parses, whose event is
    [connected] and whose [data] is missing or [null], is not forwarded:
    reading [data.connectionId] throws inside the [try], and the [catch]
    calls [onError] with a parse failure instead of [onMessage]; the client
    is left as it was.  So it is for the texts
    [{"event":"connected","data":null}] and [{"event":"connected"}], and
    for the text [null], where reading [message.event] throws. *)
Theorem connected_frame_without_data_not_forwarded (now : Z) (throws : bool)
    (c : Client) :
  (forall message : Json,
     is_string (get_prop message "event") "connected" = true ->
     get_prop message "data" = Undefined \/ get_prop message "data" = Found JNull ->
     is_string (get_prop message "event") "pong" = false /\
     handleMessage (Some message) now throws c =
       (c, [OnError "Failed to parse message"])) /\
  handleMessage (Some (JObj [("event", JStr "connected"); ("data", JNull)]))
    now throws c = (c, [OnError "Failed to parse message"]) /\
  handleMessage (Some (JObj [("event", JStr "connected")])) now throws c =
    (c, [OnError "Failed to parse message"]) /\
  handleMessage (Some JNull) now throws c = (c, [OnError "Failed to parse message"]).
Proof.
  split; [|repeat split; reflexivity].
  intros message Hconn Hdata.
  assert (Hpong : is_string (get_prop message "event") "pong" = false).
  { destruct (get_prop message "event") as [| |[| | |name| |]]; try discriminate.
    simpl in *. apply String.eqb_eq in Hconn. subst name. reflexivity. }
  split; [exact Hpong|].
  unfold handleMessage.
  destruct (get_prop message "event") as [| |x] eqn:He; try discriminate.
  rewrite Hpong, Hconn. destruct Hdata as [-> | ->]; reflexivity.
Qed.

End Client.

(* ===================================================================== *)
(** ** Further facts: the bounded queue over whole runs                   *)
(* ===================================================================== *)

Module RootQueue.

Import RootScheduler.

(** The calls that touch the queue: [enqueue(message)], [clearQueue()] and
    the [shift()] of one turn of [processQueue]. *)
Inductive Call : Type :=
| CallEnqueue (message : BroadcastMessage)
| CallClear
| CallShift.

Definition call (s : Scheduler) (c : Call) : Scheduler :=
  match c with
  | CallEnqueue message => snd (enqueue message s)
  | CallClear => clearQueue s
  | CallShift => shift s
  end.

Definition run (calls : list Call) (s : Scheduler) : Scheduler :=
  fold_left call calls s.

Lemma run_reachable (calls : list Call) (s : Scheduler) :
  reachable s -> reachable (run calls s).
Proof.
  revert s. induction calls as [|c rest IH]; intros s Hs; simpl; [exact Hs|].
  apply IH. destruct c; simpl; constructor; exact Hs.
Qed.

Lemma run_maxQueueSize (calls : list Call) (s : Scheduler) :
  maxQueueSize (run calls s) = maxQueueSize s.
Proof.
  revert s. induction calls as [|c rest IH]; intros s; simpl; [reflexivity|].
  rewrite IH. destruct c; simpl; auto using maxQueueSize_enqueue.
Qed.

(** Whatever is called on a scheduler, in whatever order, its queue never
    holds more than the [maxQueueSize] it was constructed with. *)
Theorem queue_never_exceeds_capacity (options : option nat) (calls : list Call) :
  length (queue (run calls (new options))) <=
  match options with Some n => n | None => 1000 end.
Proof.
  pose proof (reachable_bounded _ (run_reachable calls (new options) (reach_new options)))
    as H.
  rewrite run_maxQueueSize in H. exact H.
Qed.


Lemma inserted_Permutation (m : BroadcastMessage) (q q' : list BroadcastMessage) :
  inserted_in_priority_order m q q' -> Permutation (m :: q) q'.
Proof.
  intros (a & b & -> & -> & _). apply Permutation_middle.
Qed.

(** What [enqueue] answers and what it leaves behind: [false] only on a full
    queue, which it leaves untouched; [true] with the message queued; and
    below capacity nothing queued is lost. *)
Theorem enqueue_outcome (message : BroadcastMessage) (s : Scheduler) :
  (fst (enqueue message s) = false ->
     snd (enqueue message s) = s /\ maxQueueSize s <= length (queue s)) /\
  (fst (enqueue message s) = true -> In message (queue (snd (enqueue message s)))) /\
  (length (queue s) < maxQueueSize s ->
     fst (enqueue message s) = true /\
     Permutation (message :: queue s) (queue (snd (enqueue message s)))).
Proof.
  assert (Hin : forall q, In message (insertByPriority message q)).
  { intros q. eapply Permutation_in; [apply inserted_Permutation, insertByPriority_inserted|].
    left; reflexivity. }
  unfold enqueue.
  destruct (maxQueueSize s <=? length (queue s)) eqn:Hfull.
  - apply Nat.leb_le in Hfull.
    split; [|split]; [| |intros; lia];
      enqueue_cases; simpl; intros; try discriminate; auto.
  - apply Nat.leb_gt in Hfull. simpl.
    split; [discriminate|]. split; [intros _; apply Hin|].
    intros _. split; [reflexivity|]. apply inserted_Permutation, insertByPriority_inserted.
Qed.

(** Displacement is monotone: when a full queue accepts a message, exactly
    one queued message leaves, and it has a strictly lower priority than
    the message that came in. *)
Theorem displaced_message_has_lower_priority (message : BroadcastMessage)
    (s s' : Scheduler) :
  maxQueueSize s <= length (queue s) ->
  enqueue message s = (true, s') ->
  exists victim,
    In victim (queue s) /\
    priorityOrder (priority message) < priorityOrder (priority victim) /\
    Permutation (message :: queue s) (victim :: queue s') /\
    length (queue s') = length (queue s).
Proof.
  intros Hfull Henq. apply Nat.leb_le in Hfull.
  unfold enqueue in Henq. rewrite Hfull in Henq.
  assert (Hcase : forall p i,
    findIndex (fun m => Priority_eqb (priority m) p) (queue s) = Some i ->
    priorityOrder (priority message) < priorityOrder p ->
    s' = set_queue s (insertByPriority message (splice_remove i (queue s))) ->
    exists victim,
      In victim (queue s) /\
      priorityOrder (priority message) < priorityOrder (priority victim) /\
      Permutation (message :: queue s) (victim :: queue s') /\
      length (queue s') = length (queue s)).
  { intros p i Hi Hlt ->.
    destruct (evict_then_insert p s message i Hi)
      as (front & victim & back & Hq & Hv & _ & Hins & Hlen).
    exists victim. rewrite Hq at 1. split; [apply in_elt|].
    split; [rewrite Hv; exact Hlt|]. split; [|exact Hlen].
    simpl. rewrite <- (inserted_Permutation _ _ _ Hins), Hq.
    rewrite perm_swap. constructor. symmetry. apply Permutation_middle. }
  destruct (findIndex (fun m => Priority_eqb (priority m) low) (queue s)) as [i|] eqn:Hlow;
    destruct (priority message) eqn:Hp; simpl in Henq;
    try discriminate;
    try (injection Henq as <-; eapply (Hcase low); eauto; rewrite ?Hp; simpl; lia);
    destruct (findIndex (fun m => Priority_eqb (priority m) medium) (queue s))
      as [j|] eqn:Hmed; try discriminate;
    injection Henq as <-; eapply (Hcase medium); eauto; rewrite ?Hp; simpl; lia.
Qed.

Lemma displaced_message_has_lower_priority_witness :
  maxQueueSize three_lows <= length (queue three_lows) /\
  exists victim,
    In victim (queue three_lows) /\
    priorityOrder (priority H1) < priorityOrder (priority victim).
Proof.
  assert (Hfull : maxQueueSize three_lows <= length (queue three_lows))
    by (simpl; lia).
  split; [exact Hfull|].
  destruct (displaced_message_has_lower_priority H1 three_lows
              (mkScheduler [H1; L "low-2"; L "low-3"] 3) Hfull eq_refl)
    as (victim & Hin & Hlt & _).
  exists victim. split; assumption.
Defined.

End RootQueue.

(* ===================================================================== *)
(** ** Further facts: drains of the WebSocket scheduler                   *)
(* ===================================================================== *)

Module HubDrain.

Import HubScheduler.

(** *** Order *)

Lemma insert_task_head (t : BroadcastTask) (l : list BroadcastTask) :
  Forall (task_le t) l -> insert_task t l = t :: l.
Proof.
  intros H. destruct l as [|x r]; [reflexivity|]. simpl.
  inversion H as [|? ? Hx _]; subst. unfold task_le in Hx.
  apply Z.leb_le in Hx. rewrite Hx. reflexivity.
Qed.

Lemma sortQueue_fixed (q : list BroadcastTask) : cmp_sorted q -> sortQueue q = q.
Proof.
  unfold cmp_sorted. induction 1 as [|x r Hs IH Hx]; simpl; [reflexivity|].
  rewrite IH. apply insert_task_head, Hx.
Qed.

Lemma cmp_sorted_skipn (n : nat) (q : list BroadcastTask) :
  cmp_sorted q -> cmp_sorted (skipn n q).
Proof.
  unfold cmp_sorted. revert q. induction n as [|n IH]; intros q H; simpl; [exact H|].
  destruct q as [|x r]; [constructor|]. inversion H; subst. apply IH. assumption.
Qed.

(** Sorting is idempotent, and what a drain leaves queued is already in
    drain order: the next [sortQueue] moves nothing unless tasks arrived. *)
Theorem sortQueue_idempotent (n : nat) (q : list BroadcastTask) :
  sortQueue (sortQueue q) = sortQueue q /\
  sortQueue (skipn n (sortQueue q)) = skipn n (sortQueue q).
Proof.
  split; apply sortQueue_fixed;
    [| apply cmp_sorted_skipn]; apply sortQueue_sorted.
Qed.

Definition has_priority (p : MessagePriority) (t : BroadcastTask) : bool :=
  MessagePriority_eqb (priority t) p.

Lemma MessagePriority_eqb_eq (a b : MessagePriority) :
  MessagePriority_eqb a b = true <-> a = b.
Proof. destruct a, b; simpl; split; congruence. Qed.

Lemma filter_insert_other (p : MessagePriority) (x : BroadcastTask)
    (l : list BroadcastTask) :
  has_priority p x = false ->
  List.filter (has_priority p) (insert_task x l) = List.filter (has_priority p) l.
Proof.
  intros Hx. induction l as [|y r IH]; simpl.
  - rewrite Hx. reflexivity.
  - destruct (compareTasks x y <=? 0)%Z; simpl.
    + rewrite Hx. reflexivity.
    + rewrite IH. reflexivity.
Qed.

Lemma filter_insert_same (x : BroadcastTask) (l : list BroadcastTask) :
  Forall (fun y => priority y = priority x -> (timestamp x <= timestamp y)%Z) l ->
  List.filter (has_priority (priority x)) (insert_task x l) =
  x :: List.filter (has_priority (priority x)) l.
Proof.
  assert (Hxx : has_priority (priority x) x = true)
    by (apply MessagePriority_eqb_eq; reflexivity).
  induction 1 as [|y r Hy Hr IH]; simpl.
  - rewrite Hxx. reflexivity.
  - destruct (compareTasks x y <=? 0)%Z eqn:Hc; simpl.
    + rewrite Hxx. reflexivity.
    + rewrite IH.
      destruct (has_priority (priority x) y) eqn:Hpy; [|reflexivity].
      apply MessagePriority_eqb_eq in Hpy. specialize (Hy Hpy).
      apply Z.leb_gt in Hc. unfold compareTasks in Hc. rewrite Hpy in Hc.
      rewrite Z.sub_diag in Hc. simpl in Hc. lia.
Qed.

(** Within a priority, a drain keeps the order of arrival: when the queued
    tasks of priority [p] carry non-decreasing timestamps (as [broadcast]
    stamps them), [sortQueue] leaves them in the order they were queued. *)
Theorem sortQueue_keeps_arrival_order (p : MessagePriority) (q : list BroadcastTask) :
  StronglySorted Z.le (map timestamp (List.filter (has_priority p) q)) ->
  List.filter (has_priority p) (sortQueue q) = List.filter (has_priority p) q.
Proof.
  induction q as [|x r IH]; intros Hs; simpl in *; [reflexivity|].
  destruct (has_priority p x) eqn:Hx.
  - simpl in Hs. inversion Hs as [|? ? Hs' Hall]; subst.
    apply MessagePriority_eqb_eq in Hx. subst p.
    rewrite filter_insert_same; [rewrite IH by exact Hs'; reflexivity|].
    apply List.Forall_forall. intros y Hy Hp.
    rewrite List.Forall_forall in Hall. apply Hall.
    apply in_map. apply List.filter_In. split.
    + eapply Permutation_in; [symmetry; apply sortQueue_perm | exact Hy].
    + apply MessagePriority_eqb_eq. exact Hp.
  - rewrite filter_insert_other by exact Hx. apply IH, Hs.
Qed.

Lemma sortQueue_keeps_arrival_order_witness :
  StronglySorted Z.le
    (map timestamp (List.filter (has_priority normal) [normal_20; high_100; normal_50])) /\
  List.filter (has_priority normal) (sortQueue [normal_20; high_100; normal_50]) =
  List.filter (has_priority normal) [normal_20; high_100; normal_50].
Proof.
  assert (H : StronglySorted Z.le
                (map timestamp
                   (List.filter (has_priority normal) [normal_20; high_100; normal_50]))).
  { simpl. repeat constructor; lia. }
  split; [exact H|].
  exact (sortQueue_keeps_arrival_order normal [normal_20; high_100; normal_50] H).
Defined.

(** *** Grouping *)

Lemma filter_of_type_cons (ty : string) (x : BroadcastTask) (r : list BroadcastTask) :
  List.filter (of_type ty) (x :: r) =
  if String.eqb (type x) ty then x :: List.filter (of_type ty) r
  else List.filter (of_type ty) r.
Proof. reflexivity. Qed.

Lemma flat_map_filter_cons (x : BroadcastTask) (r : list BroadcastTask)
    (keys : list string) :
  NoDup keys -> In (type x) keys ->
  Permutation (x :: flat_map (fun ty => List.filter (of_type ty) r) keys)
              (flat_map (fun ty => List.filter (of_type ty) (x :: r)) keys).
Proof.
  induction 1 as [|k ks Hk Hks IH]; intros Hin; [destruct Hin|].
  cbn [flat_map]. rewrite filter_of_type_cons.
  destruct (String.eqb (type x) k) eqn:E.
  - apply String.eqb_eq in E. subst k. rewrite <- app_comm_cons. constructor.
    apply Permutation_app_head.
    assert (Hsame : forall ty, In ty ks ->
              List.filter (of_type ty) (x :: r) = List.filter (of_type ty) r).
    { intros ty Hty. rewrite filter_of_type_cons.
      destruct (String.eqb (type x) ty) eqn:E; [|reflexivity].
      apply String.eqb_eq in E. subst ty. apply list_elem_of_In in Hty. contradiction. }
    clear -Hsame. induction ks as [|k ks IH]; [reflexivity|].
    cbn [flat_map]. rewrite Hsame by (left; reflexivity).
    apply Permutation_app_head, IH. intros ty Hty. apply Hsame. right. exact Hty.
  - apply String.eqb_neq in E. destruct Hin as [Hin | Hin]; [congruence|].
    rewrite <- (IH Hin). apply Permutation_middle.
Qed.

Lemma flat_map_filter_all (l : list BroadcastTask) (keys : list string) :
  NoDup keys -> Forall (fun t => In (type t) keys) l ->
  Permutation l (flat_map (fun ty => List.filter (of_type ty) l) keys).
Proof.
  intros Hnd. induction 1 as [|x r Hx Hr IH].
  - induction keys as [|k ks IHk]; simpl; [reflexivity|].
    apply IHk. inversion Hnd; assumption.
  - rewrite <- flat_map_filter_cons by assumption. constructor. exact IH.
Qed.

(** [groupByType] splits a batch: every task lands in exactly one group,
    the group of its type; the keys are distinct and no group is empty. *)
Theorem groupByType_partitions (batch : list BroadcastTask) :
  Permutation batch (concat (map snd (groupByType batch))) /\
  NoDup (map fst (groupByType batch)) /\
  Forall (fun g => snd g <> [] /\ Forall (fun t => type t = fst g) (snd g))
         (groupByType batch).
Proof.
  split; [|split].
  - rewrite groupByType_grouped. unfold grouped.
    rewrite map_map. simpl. rewrite <- flat_map_concat_map.
    apply flat_map_filter_all; [apply types_in_order_NoDup|].
    apply List.Forall_forall. intros t Ht. apply types_in_order_In. eauto.
  - rewrite groupByType_grouped. unfold grouped.
    rewrite map_map. simpl. rewrite map_id. apply types_in_order_NoDup.
  - apply List.Forall_forall. intros [ty tasks] Hg.
    destruct (grouped_In batch ty tasks Hg) as [-> Hne].
    split; [exact Hne|]. simpl.
    apply List.Forall_forall. intros t Ht.
    apply List.filter_In in Ht as [_ Ht]. apply String.eqb_eq, Ht.
Qed.

(** *** Fan-out *)

Section Fanout.

Variable getConnectionsBySubscription : string -> list ConnectionMetadata.
Variable stringify : ServerMessage -> string.
Variable generateUUID : string -> string.
Variable now : string -> Z.

Abbreviation broadcastBatch :=
  (broadcastBatch getConnectionsBySubscription stringify generateUUID now).
Abbreviation processQueue :=
  (processQueue getConnectionsBySubscription stringify generateUUID now).
Abbreviation enqueue :=
  (enqueue getConnectionsBySubscription stringify generateUUID now).

(** [broadcastUrgent(type, event, data)]: no queue, one envelope, written
    at once to the subscribers of [type]. *)
Definition broadcastUrgent (type event : string) (data : Json) : list Write :=
  let connections := getConnectionsBySubscription type in
  match connections with
  | [] => []
  | _ =>
      let message :=
        mkServerMessage (generateUUID type) type (now type) "server-to-client"
          event (TaskData data) in
      let serialized := stringify message in
      flat_map (fun conn => sendToConnection conn serialized) connections
  end.

(** The receiver of a write is a connection subscribed to [ty] whose
    [isAlive] is set and whose socket is open. *)
Definition to_live_subscriber (ty : string) (w : Write) : Prop :=
  exists conn,
    In conn (getConnectionsBySubscription ty) /\
    isAlive conn = true /\ socketOpen conn = true /\ conn_id conn = fst w.

Lemma sendToConnection_live (ty text : string) (conns : list ConnectionMetadata)
    (w : Write) :
  (forall c, In c conns -> In c (getConnectionsBySubscription ty)) ->
  In w (flat_map (fun conn => sendToConnection conn text) conns) ->
  to_live_subscriber ty w /\ snd w = text.
Proof.
  intros Hsub Hin. apply in_flat_map in Hin as (conn & Hconn & Hw).
  unfold sendToConnection in Hw.
  destruct (isAlive conn && socketOpen conn) eqn:E; [|destruct Hw].
  destruct Hw as [<- | []]. apply andb_true_iff in E as [Ha Ho].
  split; [|reflexivity]. exists conn. repeat split; auto.
Qed.

(** Neither a batch nor an urgent broadcast ever writes to a connection that
    is not subscribed to the type of the envelope, is marked dead, or whose
    socket is not open; and what is written is the text of that envelope. *)
Theorem writes_reach_only_live_subscribers (batch : list BroadcastTask)
    (type event : string) (data : Json) :
  (forall w, In w (broadcastBatch batch) ->
     exists ty tasks,
       In (ty, tasks) (groupByType batch) /\
       to_live_subscriber ty w /\
       snd w = stringify (createMergedMessage generateUUID now ty tasks)) /\
  (forall w, In w (broadcastUrgent type event data) ->
     to_live_subscriber type w /\
     snd w = stringify (mkServerMessage (generateUUID type) type (now type)
                          "server-to-client" event (TaskData data))).
Proof.
  split.
  - intros w Hw. unfold HubScheduler.broadcastBatch in Hw.
    destruct batch as [|t r]; [destruct Hw|].
    apply in_flat_map in Hw as ([ty tasks] & Hg & Hw).
    exists ty, tasks. split; [exact Hg|].
    destruct (getConnectionsBySubscription ty) as [|c cs] eqn:Hc; [destruct Hw|].
    apply (sendToConnection_live ty _ (c :: cs)); [|exact Hw].
    intros c' Hc'. rewrite Hc. exact Hc'.
  - intros w Hw. unfold broadcastUrgent in Hw.
    destruct (getConnectionsBySubscription type) as [|c cs] eqn:Hc; [destruct Hw|].
    apply (sendToConnection_live type _ (c :: cs)); [|exact Hw].
    intros c' Hc'. rewrite Hc. exact Hc'.
Qed.

(** *** Progress of the drain *)

Definition drain (config : WebSocketConfig) (s : Scheduler) : Scheduler :=
  snd (processQueue config s).

Lemma batchSize_pos (config : WebSocketConfig) : 1 <= batchSize config.
Proof. unfold batchSize. destruct (broadcastBatchSize config); lia. Qed.

Lemma drain_length (config : WebSocketConfig) (s : Scheduler) :
  isProcessing s = false ->
  isProcessing (drain config s) = false /\
  length (messageQueue (drain config s)) =
    length (messageQueue s) - Nat.min (batchSize config) (length (messageQueue s)).
Proof.
  intros Hp. unfold drain, HubScheduler.processQueue, processQueue_begin.
  rewrite Hp. simpl.
  destruct (length (messageQueue s) =? 0) eqn:E; simpl.
  - apply Nat.eqb_eq in E. split; [exact Hp | lia].
  - split; [reflexivity|].
    rewrite length_skipn, length_sortQueue.
    pose proof (batchSize_pos config). lia.
Qed.

Lemma drain_iter_empty (config : WebSocketConfig) (n : nat) (s : Scheduler) :
  isProcessing s = false -> length (messageQueue s) <= n ->
  messageQueue (Nat.iter n (drain config) s) = [].
Proof.
  revert s. induction n as [|n IH]; intros s Hp Hlen.
  - simpl. destruct (messageQueue s); [reflexivity | simpl in Hlen; lia].
  - rewrite Nat.iter_succ_r.
    destruct (drain_length config s Hp) as [Hp' Hl'].
    apply IH; [exact Hp'|].
    pose proof (batchSize_pos config). lia.
Qed.

(** Every complete run of [processQueue] on an idle scheduler takes
    [min batchSize |Q|] tasks off the queue, at least one when the queue is
    not empty, so [|Q|] runs at most empty it (the runs that the [finally]
    block schedules with [setImmediate]). *)
Theorem drain_progress (config : WebSocketConfig) (s : Scheduler) :
  isProcessing s = false ->
  length (messageQueue (drain config s)) =
    length (messageQueue s) - Nat.min (batchSize config) (length (messageQueue s)) /\
  (messageQueue s <> [] ->
     length (messageQueue (drain config s)) < length (messageQueue s)) /\
  (length (messageQueue s) <= batchSize config -> messageQueue (drain config s) = []) /\
  messageQueue (Nat.iter (length (messageQueue s)) (drain config) s) = [].
Proof.
  intros Hp. destruct (drain_length config s Hp) as [_ Hl].
  pose proof (batchSize_pos config) as Hpos.
  split; [exact Hl|]. split; [|split].
  - intros Hne. destruct (messageQueue s) eqn:E; [contradiction|].
    simpl in *. lia.
  - intros Hfit. apply length_zero_iff_nil. lia.
  - apply drain_iter_empty; [exact Hp | lia].
Qed.


End Fanout.

Lemma writes_reach_only_live_subscribers_witness :
  In ("conn-1", "batch_update")
     (broadcastBatch one_client show_event fixed_uuid fixed_now [high_100; normal_50]) /\
  to_live_subscriber one_client "status" ("conn-1", "batch_update").
Proof.
  assert (H : In ("conn-1", "batch_update")
                (broadcastBatch one_client show_event fixed_uuid fixed_now
                   [high_100; normal_50])) by (left; reflexivity).
  split; [exact H|].
  destruct (proj1 (writes_reach_only_live_subscribers one_client show_event fixed_uuid
                     fixed_now [high_100; normal_50] "status" "x" JNull) _ H)
    as (ty & tasks & Hg & Hlive & _).
  destruct Hg as [Hg | []]. injection Hg as <- _. exact Hlive.
Defined.

Lemma drain_progress_witness :
  isProcessing (mkScheduler [normal_50; high_100] false) = false /\
  messageQueue (drain one_client show_event fixed_uuid fixed_now defaultConfig
                  (mkScheduler [normal_50; high_100] false)) = [].
Proof.
  split; [reflexivity|].
  apply (proj1 (proj2 (proj2 (drain_progress one_client show_event fixed_uuid fixed_now
                                defaultConfig (mkScheduler [normal_50; high_100] false)
                                eq_refl)))).
  unfold batchSize. simpl. lia.
Defined.


End HubDrain.

(* ===================================================================== *)
(** ** Further facts: publishing through the router                       *)
(* ===================================================================== *)

Module RouterPublish.

Import Router.

#[local] Set Warnings "-clear-no-such-hyp".

(** The object [publish] returns: [{ success: true }], or
    [{ success: false, error }] where the text of [error] is built from the
    size of the message and the limit. *)
Inductive PublishResult : Type :=
| Rejected (messageSize : option nat) (limit : nat)
| Published.

(** [publish(message)] for a message of type [type]; [messageSize] is what
    [calculateMessageSize(message)] returns, [None] for the [Infinity] of a
    message that cannot be serialized.  The result comes with the set of
    callbacks that were called with the message. *)
Definition publish (messageSize : option nat) (type : string) (r : MessageRouter)
    : PublishResult * gset Callback :=
  if match messageSize with
     | Some size => maxMessageSize r <? size
     | None => true
     end
  then (Rejected messageSize (maxMessageSize r), ∅)
  else
    match subscribers r !! type with
    | Some set => (Published, set)
    | None => (Published, ∅)
    end.

Definition subscribers_of (type : string) (r : MessageRouter) : gset Callback :=
  default ∅ (subscribers r !! type).

Lemma subscribe_lookup (type : string) (callback : Callback) (r : MessageRouter) :
  includes RESERVED_TYPES type = false ->
  subscribers (snd (subscribe type callback r)) !! type =
  Some (subscribers_of type r ∪ {[callback]}).
Proof.
  intros H. unfold subscribe, subscribers_of. rewrite H. simpl.
  destruct (subscribers r !! type) as [set|] eqn:E.
  - rewrite lookup_alter_eq, E. reflexivity.
  - rewrite lookup_alter_eq, lookup_insert_eq. reflexivity.
Qed.

Lemma unsubscribe_lookup (type : string) (callback : Callback) (r : MessageRouter) :
  subscribers (unsubscribe type callback r) !! type =
  (fun set => set ∖ {[callback]}) <$> (subscribers r !! type).
Proof. unfold unsubscribe. simpl. apply lookup_alter_eq. Qed.

(** A message within the size limit is handed to a callback exactly while
    that callback is subscribed to its type: after [subscribe] it is called,
    after the [unsubscribe] closure it is not.  A message over the limit,
    or one that cannot be serialized, is handed to nobody, and a message of
    size exactly [maxMessageSize] still goes through. *)
Theorem publish_follows_subscriptions (type : string) (callback : Callback)
    (size : nat) (r : MessageRouter) :
  includes RESERVED_TYPES type = false ->
  size <= maxMessageSize r ->
  callback ∈ snd (publish (Some size) type (snd (subscribe type callback r))) /\
  (callback ∉ snd (publish (Some size) type
                     (unsubscribe type callback (snd (subscribe type callback r))))) /\
  fst (publish (Some (maxMessageSize r)) type r) = Published /\
  snd (publish (Some (S (maxMessageSize r))) type (snd (subscribe type callback r))) = ∅ /\
  snd (publish None type (snd (subscribe type callback r))) = ∅.
Proof.
  intros Hres Hsize.
  assert (Hmax : maxMessageSize (snd (subscribe type callback r)) = maxMessageSize r).
  { unfold subscribe. rewrite Hres. reflexivity. }
  assert (Hfit : (maxMessageSize r <? size) = false) by (apply Nat.ltb_ge; exact Hsize).
  repeat split.
  - unfold publish. rewrite Hmax, Hfit, subscribe_lookup by exact Hres. simpl.
    apply elem_of_union. right. apply elem_of_singleton. reflexivity.
  - unfold publish.
    change (maxMessageSize (unsubscribe type callback (snd (subscribe type callback r))))
      with (maxMessageSize (snd (subscribe type callback r))).
    rewrite Hmax, Hfit, unsubscribe_lookup, subscribe_lookup by exact Hres.
    simpl. intros Hin. apply elem_of_difference in Hin as [_ Hin].
    apply Hin, elem_of_singleton. reflexivity.
  - unfold publish. rewrite Nat.ltb_irrefl.
    destruct (subscribers r !! type); reflexivity.
  - unfold publish. rewrite Hmax.
    assert (E : (maxMessageSize r <? S (maxMessageSize r)) = true)
      by (apply Nat.ltb_lt; lia).
    rewrite E. reflexivity.
Qed.

Lemma publish_follows_subscriptions_witness :
  includes RESERVED_TYPES "notification" = false /\
  10 <= maxMessageSize (new None) /\
  7 ∈ snd (publish (Some 10) "notification"
             (snd (subscribe "notification" 7 (new None)))).
Proof.
  assert (H1 : includes RESERVED_TYPES "notification" = false) by reflexivity.
  assert (H2 : 10 <= maxMessageSize (new None)).
  { cbn [new maxMessageSize]. unfold DEFAULT_MAX_MESSAGE_SIZE. lia. }
  split; [exact H1|]. split; [exact H2|].
  exact (proj1 (publish_follows_subscriptions "notification" 7 10 (new None) H1 H2)).
Defined.

(** Whatever was requested before, a message of the reserved type ['error']
    is handed to no callback, whatever its size. *)
Theorem error_messages_reach_nobody (options : option nat)
    (requests : list Request) (messageSize : option nat) :
  snd (publish messageSize "error" (run requests (new options))) = ∅.
Proof.
  assert (Hfree : reserved_free (run requests (new options))).
  { apply run_reserved_free. intros t _. apply lookup_empty. }
  unfold publish. rewrite (Hfree "error") by (simpl; auto).
  destruct (match messageSize with Some _ => _ | None => _ end); reflexivity.
Qed.

(** The number of subscribers counts callbacks, not calls: a new callback
    adds one, the same callback again adds nothing, and its [unsubscribe]
    closure takes the count back to where it was. *)
Theorem subscriber_count_round_trip (type : string) (callback : Callback)
    (r : MessageRouter) :
  includes RESERVED_TYPES type = false ->
  callback ∉ subscribers_of type r ->
  let r1 := snd (subscribe type callback r) in
  getSubscriberCount type r1 = S (getSubscriberCount type r) /\
  getSubscriberCount type (snd (subscribe type callback r1)) = getSubscriberCount type r1 /\
  getSubscriberCount type (unsubscribe type callback r1) = getSubscriberCount type r.
Proof.
  intros Hres Hnew r1.
  assert (Hcount : getSubscriberCount type r = size (subscribers_of type r)).
  { unfold getSubscriberCount, subscribers_of.
    destruct (subscribers r !! type); [reflexivity|]. symmetry. apply size_empty. }
  assert (H1 : subscribers r1 !! type = Some (subscribers_of type r ∪ {[callback]}))
    by (apply subscribe_lookup, Hres).
  split; [|split].
  - unfold getSubscriberCount at 1. rewrite H1, Hcount.
    rewrite size_union by set_solver. rewrite size_singleton. lia.
  - unfold getSubscriberCount. rewrite subscribe_lookup by exact Hres.
    unfold subscribers_of. rewrite H1. simpl. f_equal. set_solver.
  - unfold getSubscriberCount at 1. rewrite unsubscribe_lookup, H1. simpl.
    rewrite Hcount. f_equal. set_solver.
Qed.

Lemma subscriber_count_round_trip_witness :
  includes RESERVED_TYPES "notification" = false /\
  (7 ∉ subscribers_of "notification" (new None)) /\
  getSubscriberCount "notification" (snd (subscribe "notification" 7 (new None))) =
    S (getSubscriberCount "notification" (new None)).
Proof.
  assert (H1 : includes RESERVED_TYPES "notification" = false) by reflexivity.
  assert (H2 : 7 ∉ subscribers_of "notification" (new None)).
  { unfold subscribers_of, new. simpl. rewrite lookup_empty. simpl. set_solver. }
  split; [exact H1|]. split; [exact H2|].
  exact (proj1 (subscriber_count_round_trip "notification" 7 (new None) H1 H2)).
Defined.

End RouterPublish.

(* ===================================================================== *)
(** ** Further facts: the change detector over ticks                      *)
(* ===================================================================== *)

Module DetectorRun.

Import HubScheduler (MessagePriority, high, normal, low).
Import Detector.

#[local] Set Warnings "-clear-no-such-hyp".

(** *** Status updates *)

Lemma strict_neq_same_num (a b : Q) : (a == b)%Q -> strict_neq (VNum a) (VNum b) = false.
Proof. intros H. simpl. apply Qeq_bool_iff in H. rewrite H. reflexivity. Qed.

(** No status update without a change: two samples that agree on the five
    monitored fields broadcast nothing, whatever their [uptime],
    [timestamp] and [version]; the sample still becomes [lastStatus]. *)
Theorem no_status_update_without_change (config : ChangeDetectorConfig)
    (last current : SystemStatus) :
  (cpuUsage last == cpuUsage current)%Q ->
  (memoryUsage last == memoryUsage current)%Q ->
  (diskUsage last == diskUsage current)%Q ->
  (activeConnections last == activeConnections current)%Q ->
  systemOnline last = systemOnline current ->
  checkStatusChange config (Some current) (Some last) = ([], Some current).
Proof.
  intros Hc Hm Hd Ha Ho.
  unfold checkStatusChange, detectStatusChanges, fieldsToMonitor. simpl.
  apply Qeq_bool_iff in Hc, Hm, Hd, Ha.
  rewrite Hc, Hm, Hd, Ha, Ho, Bool.eqb_reflx. reflexivity.
Qed.

Lemma no_status_update_without_change_witness :
  (cpuUsage cpu_at_90 == cpuUsage (mkStatus true 90 50 65 0 11 2000 "2.0.0"))%Q /\
  checkStatusChange defaultConfig (Some (mkStatus true 90 50 65 0 11 2000 "2.0.0"))
    (Some cpu_at_90) = ([], Some (mkStatus true 90 50 65 0 11 2000 "2.0.0")).
Proof.
  split; [reflexivity|].
  exact (no_status_update_without_change defaultConfig cpu_at_90
           (mkStatus true 90 50 65 0 11 2000 "2.0.0")
           (Qeq_refl _) (Qeq_refl _) (Qeq_refl _) (Qeq_refl _) eq_refl).
Defined.

(** What [detectStatusChanges] reports: at most one change per monitored
    field, in the order of [fieldsToMonitor], each a real difference, and
    for numbers with [delta = newValue - oldValue]. *)
Theorem detected_changes_are_real (last current : SystemStatus) :
  length (detectStatusChanges last current) <= 5 /\
  NoDup (map field (detectStatusChanges last current)) /\
  sublist (map field (detectStatusChanges last current)) (map field_name fieldsToMonitor) /\
  Forall
    (fun c =>
       strict_neq (oldValue c) (newValue c) = true /\
       match oldValue c, newValue c with
       | VNum o, VNum n => delta c = Some (n - o)%Q
       | _, _ => delta c = None
       end)
    (detectStatusChanges last current).
Proof.
  unfold detectStatusChanges, fieldsToMonitor. simpl.
  destruct (Qeq_bool (cpuUsage last) (cpuUsage current)) eqn:E1;
    destruct (Qeq_bool (memoryUsage last) (memoryUsage current)) eqn:E2;
    destruct (Qeq_bool (diskUsage last) (diskUsage current)) eqn:E3;
    destruct (Qeq_bool (activeConnections last) (activeConnections current)) eqn:E4;
    destruct (Bool.eqb (systemOnline last) (systemOnline current)) eqn:E5;
    simpl;
    (split; [lia|]);
    (split; [apply (bool_decide_unpack _); vm_compute; reflexivity|]);
    (split; [repeat first [apply sublist_nil | apply sublist_skip | apply sublist_cons]|]);
    repeat constructor; simpl; rewrite ?E1, ?E2, ?E3, ?E4, ?E5; reflexivity.
Qed.

(** *** Health levels *)

Definition level_rank (l : AlertLevel) : nat :=
  match l with info => 0 | warning => 1 | critical => 2 end.

(** The level grows with the value and shrinks with the threshold. *)
Theorem getAlertLevel_monotone (v v' t t' : Q) :
  (v <= v')%Q -> (t' <= t)%Q ->
  level_rank (getAlertLevel v t) <= level_rank (getAlertLevel v' t').
Proof.
  intros Hv Ht. unfold getAlertLevel.
  destruct (Qgtb v (t + 15)) eqn:E1.
  - apply Qgtb_lt in E1.
    assert (E : Qgtb v' (t' + 15) = true) by (apply Qgtb_lt; lra).
    rewrite E. simpl. lia.
  - destruct (Qgtb v t) eqn:E2; [|simpl; lia].
    apply Qgtb_lt in E2.
    assert (E : Qgtb v' t' = true) by (apply Qgtb_lt; lra).
    rewrite E. destruct (Qgtb v' (t' + 15)); simpl; lia.
Qed.

Lemma getAlertLevel_monotone_witness :
  (85 <= 96)%Q /\ (80 <= 80)%Q /\
  level_rank (getAlertLevel 85 80) <= level_rank (getAlertLevel 96 80).
Proof.
  assert (H1 : (85 <= 96)%Q) by (unfold Qle; simpl; lia).
  assert (H2 : (80 <= 80)%Q) by apply Qle_refl.
  split; [exact H1|]. split; [exact H2|].
  exact (getAlertLevel_monotone 85 96 80 80 H1 H2).
Defined.

Lemma check_step_settled (c : Check) (m : gmap string HealthEntry) (entry : HealthEntry) :
  m !! name c = Some entry ->
  h_level entry = getAlertLevel (value c) (threshold c) ->
  check_step c m = ([], m).
Proof.
  intros E Hl. unfold check_step. rewrite E, Hl.
  destruct (getAlertLevel (value c) (threshold c)); reflexivity.
Qed.

(** After a tick, [lastHealthStatus] holds for each of [cpu], [memory] and
    [disk] the level of the sample just seen; checking the same sample again
    (a tick whose fetch failed) broadcasts nothing and changes nothing. *)
Theorem health_check_settles (config : ChangeDetectorConfig) (st : SystemStatus)
    (m : gmap string HealthEntry) :
  let m' := snd (checkHealthAlerts config (Some st) m) in
  Forall
    (fun c => exists entry,
       m' !! name c = Some entry /\
       h_level entry = getAlertLevel (value c) (threshold c))
    (checks config st) /\
  checkHealthAlerts config (Some st) m' = ([], m').
Proof.
  intros m'.
  assert (Hall : forall c, In c (checks config st) ->
            exists entry, m' !! name c = Some entry /\
                          h_level entry = getAlertLevel (value c) (threshold c)).
  { intros c Hc. apply checkHealthAlerts_lookup, Hc. }
  split; [apply List.Forall_forall; exact Hall|].
  unfold checkHealthAlerts at 1. unfold checks in *.
  rewrite run_checks_three. cbv zeta.
  destruct (Hall _ (or_introl eq_refl)) as (e1 & H1 & L1).
  destruct (Hall _ (or_intror (or_introl eq_refl))) as (e2 & H2 & L2).
  destruct (Hall _ (or_intror (or_intror (or_introl eq_refl)))) as (e3 & H3 & L3).
  rewrite (check_step_settled _ m' e1 H1 L1). cbn [fst snd].
  rewrite (check_step_settled _ m' e2 H2 L2). cbn [fst snd].
  rewrite (check_step_settled _ m' e3 H3 L3). reflexivity.
Qed.

(** *** Alerts and recoveries over a run *)

Definition count_event (event : string) (bs : list Broadcast) : nat :=
  length (List.filter (fun b => String.eqb (b_event b) event) bs).

(** 1 while the component stands at a level other than [info]. *)
Definition alerting (component : string) (m : gmap string HealthEntry) : nat :=
  match m !! component with
  | Some entry => if AlertLevel_eqb (h_level entry) info then 0 else 1
  | None => 0
  end.

Lemma count_event_app (event : string) (a b : list Broadcast) :
  count_event event (a ++ b) = count_event event a + count_event event b.
Proof. unfold count_event. rewrite List.filter_app, length_app. reflexivity. Qed.

Lemma check_step_balance (n : string) (c : Check) (m : gmap string HealthEntry) :
  count_event "health_recovery" (about n (fst (check_step c m)))
    + alerting n (snd (check_step c m)) <=
  count_event "health_alert" (about n (fst (check_step c m))) + alerting n m.
Proof.
  destruct (String.eqb_spec (name c) n) as [<- | Hne].
  - rewrite check_step_about_own.
    unfold check_step, alerting, count_event, health_alert, health_recovery.
    destruct (m !! name c) as [l|] eqn:E.
    + destruct (h_level l) eqn:Hl;
        destruct (getAlertLevel (value c) (threshold c)) eqn:Hc; cbn;
        rewrite ?lookup_insert_eq, ?E; cbn; rewrite ?Hl; cbn; lia.
    + destruct (getAlertLevel (value c) (threshold c)) eqn:Hc; cbn;
        rewrite ?lookup_insert_eq, ?E; cbn; lia.
  - rewrite check_step_about_other by exact Hne.
    unfold alerting, count_event. rewrite check_step_lookup_other by exact Hne.
    simpl. lia.
Qed.

Lemma health_tick_balance (config : ChangeDetectorConfig) (n : string)
    (st : SystemStatus) (m : gmap string HealthEntry) :
  count_event "health_recovery" (about n (fst (health_tick config st m)))
    + alerting n (snd (health_tick config st m)) <=
  count_event "health_alert" (about n (fst (health_tick config st m))) + alerting n m.
Proof.
  unfold health_tick, checkHealthAlerts, checks.
  rewrite run_checks_three. cbv zeta. cbn [fst snd].
  set (c1 := mkCheck "cpu" _ _). set (c2 := mkCheck "memory" _ _).
  set (c3 := mkCheck "disk" _ _).
  rewrite !about_app, !count_event_app.
  pose proof (check_step_balance n c1 m) as B1.
  pose proof (check_step_balance n c2 (snd (check_step c1 m))) as B2.
  pose proof (check_step_balance n c3 (snd (check_step c2 (snd (check_step c1 m))))) as B3.
  lia.
Qed.

Lemma health_run_balance (config : ChangeDetectorConfig) (n : string)
    (samples : list SystemStatus) (m : gmap string HealthEntry) :
  count_event "health_recovery" (about n (concat (health_run config samples m))) <=
  count_event "health_alert" (about n (concat (health_run config samples m)))
    + alerting n m.
Proof.
  revert m. induction samples as [|st rest IH]; intros m;
    [unfold count_event; simpl; lia|].
  change (health_run config (st :: rest) m)
    with (fst (health_tick config st m)
            :: health_run config rest (snd (health_tick config st m))).
  cbn [concat]. rewrite !about_app, !count_event_app.
  pose proof (health_tick_balance config n st m) as Ht.
  pose proof (IH (snd (health_tick config st m))) as Hr. lia.
Qed.

(** No recovery without an alert: over any run of samples from a fresh
    detector, and for any component, the broadcasts never hold more
    [health_recovery] events than [health_alert] events. *)
Theorem recoveries_follow_alerts (config : ChangeDetectorConfig) (component : string)
    (samples : list SystemStatus) :
  count_event "health_recovery"
    (about component (concat (health_run config samples ∅))) <=
  count_event "health_alert"
    (about component (concat (health_run config samples ∅))).
Proof.
  pose proof (health_run_balance config component samples ∅) as H.
  unfold alerting in H at 1. rewrite lookup_empty in H. lia.
Qed.

(** *** Statistics *)

(** What [checkStatsChange] reads of a [SystemStats]: [requests.total] and
    [requests.perSecond]. *)
Record SystemStats : Type := mkStats {
  requests_total : Q;
  requests_perSecond : Q
}.

(** A call [broadcast('stats', 'stats_update', { stats }, priority)]. *)
Record StatsBroadcast : Type := mkStatsBroadcast {
  sb_event : string;
  sb_stats : SystemStats;
  sb_priority : MessagePriority
}.

(** [checkStatsChange], given what [fetchCurrentStats] returned. *)
Definition checkStatsChange (currentStats lastStats : option SystemStats)
    : list StatsBroadcast * option SystemStats :=
  match currentStats with
  | None => ([], lastStats)
  | Some current =>
      match lastStats with
      | None => ([mkStatsBroadcast "stats_update" current normal], Some current)
      | Some last =>
          let hasSignificantChange :=
            Qgtb (Qabs (requests_perSecond current - requests_perSecond last)) 5
            || negb (Qeq_bool (requests_total current) (requests_total last)) in
          ((if hasSignificantChange
            then [mkStatsBroadcast "stats_update" current normal] else []),
           Some current)
      end
  end.

(** Successive ticks of the detector on a list of statistics samples. *)
Fixpoint stats_run (samples : list SystemStats) (lastStats : option SystemStats)
    : list StatsBroadcast * option SystemStats :=
  match samples with
  | [] => ([], lastStats)
  | current :: rest =>
      let r := checkStatsChange (Some current) lastStats in
      let r' := stats_run rest (snd r) in
      (fst r ++ fst r', snd r')
  end.

(** Each sample keeps [total] and moves [perSecond] by at most 5 from the
    sample before it. *)
Fixpoint small_steps (previous : SystemStats) (samples : list SystemStats) : Prop :=
  match samples with
  | [] => True
  | current :: rest =>
      (requests_total current == requests_total previous)%Q /\
      (Qabs (requests_perSecond current - requests_perSecond previous) <= 5)%Q /\
      small_steps current rest
  end.

(** Each sample is compared with the one just before it, not with the one
    last broadcast: while [total] stands still, [perSecond] can move any
    distance in steps of at most 5 without a single [stats_update]. *)
Theorem slow_drift_is_not_broadcast (previous : SystemStats)
    (samples : list SystemStats) :
  small_steps previous samples ->
  stats_run samples (Some previous) = ([], Some (List.last samples previous)).
Proof.
  revert previous. induction samples as [|current rest IH]; intros previous Hs.
  - reflexivity.
  - destruct Hs as (Ht & Hp & Hrest).
    cbn [stats_run]. unfold checkStatsChange.
    apply Qgtb_le in Hp. apply Qeq_bool_iff in Ht. rewrite Hp, Ht. cbn [negb orb fst snd].
    rewrite (IH current Hrest). simpl.
    destruct rest as [|s rest]; [reflexivity|].
    do 2 f_equal. clear. revert s. induction rest as [|x r IHr]; intros s; [reflexivity|].
    apply (IHr x).
Qed.

Lemma slow_drift_is_not_broadcast_witness :
  small_steps (mkStats 100 0) [mkStats 100 5; mkStats 100 10; mkStats 100 15] /\
  stats_run [mkStats 100 5; mkStats 100 10; mkStats 100 15] (Some (mkStats 100 0)) =
    ([], Some (mkStats 100 15)).
Proof.
  assert (H : small_steps (mkStats 100 0)
                [mkStats 100 5; mkStats 100 10; mkStats 100 15]).
  { simpl. repeat split; try reflexivity; unfold Qle; simpl; lia. }
  split; [exact H|].
  exact (slow_drift_is_not_broadcast (mkStats 100 0)
           [mkStats 100 5; mkStats 100 10; mkStats 100 15] H).
Defined.

End DetectorRun.

(* ===================================================================== *)
(** ** Further facts: sessions of the client                              *)
(* ===================================================================== *)

Module ClientSession.

Import Client.

(** *** What [send] and the flush leave alone *)

Lemma send_keeps (message : ClientMessage) (c : Client) :
  let c' := snd (fst (send message c)) in
  state c' = state c /\ heartbeatTimer c' = heartbeatTimer c /\
  reconnectAttempts c' = reconnectAttempts c /\ ws c' = ws c /\
  subscriptions c' = subscriptions c /\ reconnectTimer c' = reconnectTimer c.
Proof. unfold send. destruct (_ && _); simpl; repeat split; reflexivity. Qed.

Lemma flush_loop_keeps (fuel : nat) (c c' : Client) (e : list Effect) :
  flush_loop fuel c = Some (c', e) ->
  state c' = state c /\ heartbeatTimer c' = heartbeatTimer c /\
  reconnectAttempts c' = reconnectAttempts c.
Proof.
  revert c c' e. induction fuel as [|fuel IH]; intros c c' e; simpl.
  - destruct (messageQueue c); [|discriminate].
    intros H. injection H as <- _. repeat split; reflexivity.
  - destruct (messageQueue c) as [|m rest].
    + intros H. injection H as <- _. repeat split; reflexivity.
    + pose proof (send_keeps m (set_messageQueue rest c)) as Hs.
      destruct (send m (set_messageQueue rest c)) as [[b c1] e1]. simpl in Hs.
      destruct (flush_loop fuel c1) as [[c2 e2]|] eqn:Hl; [|discriminate].
      intros H. injection H as <- _.
      destruct (IH _ _ _ Hl) as (H1 & H2 & H3).
      destruct Hs as (S1 & S2 & S3 & _). repeat split; congruence.
Qed.

(** What an [open] event leaves behind, whatever was queued. *)
Lemma on_open_result (opts : Options) (fuel : nat) (uuid : string) (now : Z)
    (c c' : Client) (e : list Effect) :
  on_open opts fuel uuid now c = Some (c', e) ->
  state c' = connected /\ reconnectAttempts c' = 0 /\
  heartbeatTimer c' = Some (heartbeatInterval opts).
Proof.
  unfold on_open, handleOpen, flushMessageQueue. intros H.
  match type of H with context [if ?b then _ else _] => destruct b end.
  - injection H as <- _. repeat split; reflexivity.
  - match type of H with
    | context [flush_loop fuel ?x] =>
        destruct (flush_loop fuel x) as [[c1 e1]|] eqn:Hl; [|discriminate]
    end.
    apply flush_loop_keeps in Hl as (H1 & H2 & H3). simpl in H1, H2, H3.
    destruct (0 <? length (subscriptions c1)).
    + match type of H with
      | context [send ?m c1] =>
          pose proof (send_keeps m c1) as Hs; destruct (send m c1) as [[b c2] e2]
      end.
      simpl in Hs. destruct Hs as (S1 & S2 & S3 & _).
      injection H as <- _. repeat split; congruence.
    + injection H as <- _. repeat split; congruence.
Qed.

(** *** Connecting and disconnecting *)

(** [connect()] is idempotent: called again right after a call that did
    not throw, it does nothing. *)
Theorem connect_twice_is_connect_once (opts : Options) (throws : bool) (c : Client) :
  connect opts throws (fst (connect opts false c)) = (fst (connect opts false c), []).
Proof.
  unfold connect. destruct (state c) eqn:E; simpl; rewrite ?E; reflexivity.
Qed.

(** After [disconnect()] the client is at rest: both timers are cleared and
    the socket is let go; the [close] event that follows calls [onClose]
    and nothing else, and leaves the client exactly as [disconnect()] left
    it: no reconnect is attempted, no socket is held, the counter is not
    touched. *)
Theorem disconnect_stops_reconnecting (opts : Options) (c : Client) :
  let c1 := fst (disconnect c) in
  state c1 = disconnected /\ reconnectTimer c1 = None /\ heartbeatTimer c1 = None /\
  ws c1 = None /\ connectionId c1 = None /\
  on_close opts c1 = (c1, [OnClose]) /\
  reconnectAttempts (fst (on_close opts c1)) = reconnectAttempts c.
Proof. repeat split; reflexivity. Qed.

(** The back-off starts over after every successful connection: the first
    [close] after an [open] starts attempt 1 with the base delay. *)
Theorem backoff_restarts_after_open (opts : Options) (fuel : nat) (uuid : string)
    (now : Z) (c c' : Client) (e : list Effect) :
  on_open opts fuel uuid now c = Some (c', e) ->
  1 <= maxReconnectAttempts opts ->
  exists c'',
    on_close opts c' =
      (c'', [OnClose; OnReconnecting 1;
             SetTimeout (Qmin (reconnectInterval opts * 1) 30000)]) /\
    state c'' = reconnecting /\ reconnectAttempts c'' = 1 /\
    heartbeatTimer c'' = None /\ connectionId c'' = None.
Proof.
  intros Hopen Hmax.
  destruct (on_open_result _ _ _ _ _ _ _ Hopen) as (Hs & Ha & _).
  unfold on_close, handleClose, attemptReconnect. simpl. rewrite Hs, Ha. simpl.
  destruct (maxReconnectAttempts opts) as [|k] eqn:Ek; [lia|]. simpl.
  eexists. split; [reflexivity|]. repeat split; reflexivity.
Qed.

(** The client of the reconnect scenario once its socket has opened again. *)
Definition reopened : Client :=
  match on_open DEFAULT_OPTIONS 10 "u2" 3 subscribed_then_dropped with
  | Some (c, _) => c
  | None => subscribed_then_dropped
  end.

Lemma backoff_restarts_after_open_witness :
  1 <= maxReconnectAttempts DEFAULT_OPTIONS /\
  exists c'',
    on_close DEFAULT_OPTIONS reopened =
      (c'', [OnClose; OnReconnecting 1; SetTimeout (Qmin (3000 * 1) 30000)]).
Proof.
  assert (H : 1 <= maxReconnectAttempts DEFAULT_OPTIONS) by (simpl; lia).
  split; [exact H|].
  destruct (backoff_restarts_after_open DEFAULT_OPTIONS 10 "u2" 3
              subscribed_then_dropped reopened [OnOpen] eq_refl H) as (c'' & Hc & _).
  exists c''. exact Hc.
Defined.

(** *** The offline queue *)







(** *** The delay schedule *)

Lemma pow_1_5_succ (n : nat) : (pow_1_5 (S n) == pow_1_5 n * (3 # 2))%Q.
Proof.
  unfold pow_1_5. rewrite Nat2Z.inj_succ, <- Z.add_1_r.
  rewrite Qpower_plus by discriminate. reflexivity.
Qed.

Lemma pow_1_5_pos (n : nat) : (0 < pow_1_5 n)%Q.
Proof.
  induction n as [|n IH]; [reflexivity|].
  rewrite pow_1_5_succ. apply Qmult_lt_0_compat; [exact IH | reflexivity].
Qed.

Lemma pow_1_5_le (n n' : nat) : n <= n' -> (pow_1_5 n <= pow_1_5 n')%Q.
Proof.
  induction 1 as [|k _ IH]; [apply Qle_refl|].
  eapply Qle_trans; [exact IH|]. rewrite pow_1_5_succ.
  pose proof (pow_1_5_pos k). lra.
Qed.

(** For a non-negative [reconnectInterval] the delays never shrink from one
    attempt to the next, and none is negative. *)
Theorem reconnect_delay_monotone (opts : Options) (n n' : nat) :
  (0 <= reconnectInterval opts)%Q -> n <= n' ->
  (0 <= reconnect_delay opts n)%Q /\
  (reconnect_delay opts n <= reconnect_delay opts n')%Q.
Proof.
  intros Hi Hn. unfold reconnect_delay. split.
  - apply Q.min_glb; [|discriminate].
    apply Qmult_le_0_compat; [exact Hi | apply Qlt_le_weak, pow_1_5_pos].
  - apply Q.min_le_compat_r. apply Qmult_le_compat_nonneg.
    + split; [exact Hi | apply Qle_refl].
    + split; [apply Qlt_le_weak, pow_1_5_pos | apply pow_1_5_le; lia].
Qed.

Lemma reconnect_delay_monotone_witness :
  (0 <= reconnectInterval DEFAULT_OPTIONS)%Q /\ 1 <= 2 /\
  (reconnect_delay DEFAULT_OPTIONS 1 <= reconnect_delay DEFAULT_OPTIONS 2)%Q.
Proof.
  assert (H1 : (0 <= reconnectInterval DEFAULT_OPTIONS)%Q) by discriminate.
  assert (H2 : 1 <= 2) by lia.
  split; [exact H1|]. split; [exact H2|].
  exact (proj2 (reconnect_delay_monotone DEFAULT_OPTIONS 1 2 H1 H2)).
Defined.

(** *** Invariants of a session *)

(** The client is [connected] exactly while its heartbeat interval is
    running, and then no reconnect attempt is counted. *)
Definition session_ok (c : Client) : Prop :=
  (state c = connected <-> heartbeatTimer c <> None) /\
  (state c = connected -> reconnectAttempts c = 0).

Lemma session_ok_same (c c' : Client) :
  state c' = state c -> heartbeatTimer c' = heartbeatTimer c ->
  reconnectAttempts c' = reconnectAttempts c ->
  session_ok c -> session_ok c'.
Proof. unfold session_ok. intros -> -> ->. tauto. Qed.

Lemma session_ok_idle (c : Client) :
  state c <> connected -> heartbeatTimer c = None -> session_ok c.
Proof.
  unfold session_ok. intros Hs Hh. rewrite Hh. split; [split|]; intros; congruence.
Qed.

Lemma attemptReconnect_idle (opts : Options) (c : Client) :
  state (fst (attemptReconnect opts c)) <> connected /\
  heartbeatTimer (fst (attemptReconnect opts c)) = heartbeatTimer c.
Proof.
  unfold attemptReconnect. destruct (_ <=? _); simpl; split; congruence.
Qed.

Lemma send_session_ok (message : ClientMessage) (c : Client) :
  session_ok c -> session_ok (snd (fst (send message c))).
Proof.
  destruct (send_keeps message c) as (H1 & H2 & H3 & _).
  apply session_ok_same; assumption.
Qed.

(** In every state a client can reach, it is [connected] exactly while the
    heartbeat interval is running, and a connected client has its attempt
    counter at 0. *)
Theorem connected_iff_heartbeat_running (opts : Options) (c : Client) :
  reachable opts c ->
  (state c = connected <-> heartbeatTimer c <> None) /\
  (state c = connected -> reconnectAttempts c = 0).
Proof.
  change (reachable opts c -> session_ok c).
  induction 1 as [now | throws c _ IH | c _ IH | fuel uuid now c c' e _ IH Hopen
                 | c _ IH | c _ IH | parsed now throws c _ IH | uuid now c _ IH
                 | uuid now types c _ IH | uuid now types c _ IH | message c _ IH].
  - apply session_ok_idle; [discriminate | reflexivity].
  - unfold connect.
    destruct (ConnectionState_eqb (state c) connected
              || ConnectionState_eqb (state c) connecting) eqn:E; [exact IH|].
    assert (Hidle : heartbeatTimer c = None).
    { destruct IH as [[_ Hh] _].
      destruct (heartbeatTimer c) eqn:Eh; [|reflexivity].
      assert (Hc : state c = connected) by (apply Hh; discriminate).
      rewrite Hc in E. discriminate. }
    destruct throws.
    + destruct (attemptReconnect_idle opts (set_state connecting c)) as [Hs Hh].
      destruct (attemptReconnect opts (set_state connecting c)) as [c1 e1].
      simpl in *. apply session_ok_idle; [exact Hs | congruence].
    + apply session_ok_idle; [discriminate | exact Hidle].
  - apply session_ok_idle; [discriminate | reflexivity].
  - destruct (on_open_result _ _ _ _ _ _ _ Hopen) as (Hs & Ha & Hh).
    unfold session_ok. rewrite Hs, Ha, Hh. split; [split|]; intros; congruence.
  - unfold on_close, handleClose. simpl.
    destruct (ConnectionState_eqb (state c) disconnected) eqn:E; simpl.
    + apply session_ok_idle; [|reflexivity]. simpl.
      destruct (state c); discriminate.
    + match goal with
      | |- context [attemptReconnect opts ?x] =>
          destruct (attemptReconnect_idle opts x) as [Hs Hh];
          destruct (attemptReconnect opts x) as [c1 e1]
      end.
      simpl in *. apply session_ok_idle; [exact Hs | exact Hh].
  - exact IH.
  - unfold handleMessage.
    repeat match goal with
           | |- context [match ?x with _ => _ end] => destruct x
           end; simpl; try exact IH;
      (eapply session_ok_same; [| | |exact IH]; reflexivity).
  - unfold heartbeat_tick, ping. destruct (_ <? _)%Z; [exact IH|].
    pose proof (send_session_ok (mkClientMessage uuid "system" now "ping" None) c IH).
    destruct (send _ c) as [[b c1] e1]. assumption.
  - unfold subscribe.
    match goal with |- context [if ?b then _ else _] => destruct b end.
    + match goal with
      | |- context [send ?m ?x] =>
          assert (Hx : session_ok x)
            by (eapply session_ok_same; [| | |exact IH]; reflexivity);
          pose proof (send_session_ok m x Hx); destruct (send m x) as [[b c1] e1]
      end.
      assumption.
    + simpl. eapply session_ok_same; [| | |exact IH]; reflexivity.
  - unfold unsubscribe.
    match goal with |- context [if ?b then _ else _] => destruct b end.
    + match goal with
      | |- context [send ?m ?x] =>
          assert (Hx : session_ok x)
            by (eapply session_ok_same; [| | |exact IH]; reflexivity);
          pose proof (send_session_ok m x Hx); destruct (send m x) as [[b c1] e1]
      end.
      assumption.
    + simpl. eapply session_ok_same; [| | |exact IH]; reflexivity.
  - apply send_session_ok, IH.
Qed.

Lemma connected_iff_heartbeat_running_witness :
  reachable DEFAULT_OPTIONS reopened /\
  (state reopened = connected <-> heartbeatTimer reopened <> None).
Proof.
  assert (H : reachable DEFAULT_OPTIONS reopened).
  { apply (reach_open DEFAULT_OPTIONS 10 "u2" 3 subscribed_then_dropped reopened [OnOpen]);
      [|reflexivity].
    unfold subscribed_then_dropped, after.
    apply reach_connect, reach_close, reach_subscribe.
    apply (reach_open DEFAULT_OPTIONS 10 "u0" 1
             (fst (connect DEFAULT_OPTIONS false (init 0))) _ [OnOpen]);
      [|reflexivity].
    apply reach_connect, reach_init. }
  split; [exact H|].
  exact (proj1 (connected_iff_heartbeat_running DEFAULT_OPTIONS reopened H)).
Defined.

(** *** Incoming frames and the heartbeat *)

Definition is_callback (e : Effect) : bool :=
  match e with
  | OnMessage _ | OnError _ => true
  | _ => false
  end.

(** The calls of [onMessage] among the effects. *)
Definition onMessage_calls (effects : list Effect) : nat :=
  length (List.filter (fun e => match e with OnMessage _ => true | _ => false end)
            effects).

(** A frame, whatever it holds (an [error] event, garbage that does not
    parse), never makes the client reconnect, close or write: it changes at
    most [lastPongTime] and [connectionId], and its only effects are
    callbacks: [onMessage] at most once, and [onError] at most once, after
    [onMessage] only when that callback threw. *)
Theorem frames_never_disturb_the_session (parsed : option Json) (now : Z)
    (throws : bool) (c : Client) :
  let c' := fst (handleMessage parsed now throws c) in
  let effects := snd (handleMessage parsed now throws c) in
  state c' = state c /\ ws c' = ws c /\
  reconnectAttempts c' = reconnectAttempts c /\
  reconnectTimer c' = reconnectTimer c /\ heartbeatTimer c' = heartbeatTimer c /\
  messageQueue c' = messageQueue c /\ subscriptions c' = subscriptions c /\
  forallb is_callback effects = true /\
  onMessage_calls effects <= 1 /\
  length effects <= onMessage_calls effects + 1 /\
  (throws = false -> length effects <= 1) /\
  (1 < length effects ->
     exists message,
       effects = [OnMessage message; OnError "Failed to parse message"]).
Proof.
  unfold handleMessage, forward.
  repeat match goal with
         | |- context [match ?x with _ => _ end] => destruct x
         end; cbn;
    repeat split; auto; try lia; try discriminate; intros; try lia; eauto.
Qed.

Definition pong_frame : Json := JObj [("event", JStr "pong")].

(** The heartbeat: a tick more than [heartbeatTimeout] after the last pong
    closes the socket and sends nothing; a tick within the timeout on a
    connected client with an open socket sends one [ping]; and a [pong]
    received at time [t] keeps the client alive until [t + heartbeatTimeout]. *)
Theorem heartbeat_supervision (opts : Options) (uuid : string) (t now : Z)
    (throws : bool) (c : Client) :
  state c = connected -> ws c = Some OPEN ->
  ((heartbeatTimeout opts < now - lastPongTime c)%Z ->
     heartbeat_tick opts uuid now c = (c, [WsClose])) /\
  ((now - lastPongTime c <= heartbeatTimeout opts)%Z ->
     heartbeat_tick opts uuid now c =
       (c, [WsSend (mkClientMessage uuid "system" now "ping" None)])) /\
  ((now - t <= heartbeatTimeout opts)%Z ->
     heartbeat_tick opts uuid now (fst (handleMessage (Some pong_frame) t throws c)) =
       (set_lastPongTime t c,
        [WsSend (mkClientMessage uuid "system" now "ping" None)])).
Proof.
  intros Hs Hw. unfold heartbeat_tick, ping, send, is_open. simpl.
  rewrite Hs, Hw. simpl. repeat split.
  - intros H. apply Z.ltb_lt in H. rewrite H. reflexivity.
  - intros H. apply Z.ltb_ge in H. rewrite H. reflexivity.
  - intros H. apply Z.ltb_ge in H. rewrite H. reflexivity.
Qed.

Lemma heartbeat_supervision_witness :
  state reopened = connected /\ ws reopened = Some OPEN /\
  heartbeat_tick DEFAULT_OPTIONS "p" 100000 reopened = (reopened, [WsClose]).
Proof.
  split; [reflexivity|]. split; [reflexivity|].
  apply (proj1 (heartbeat_supervision DEFAULT_OPTIONS "p" 0 100000 false reopened
                  eq_refl eq_refl)).
  simpl. lia.
Defined.

End ClientSession.
